(** * BrowseMe: the browser tool suites of [createBrowserTools.js]

    A shallow embedding of the two tool suites defined in
    [src/createBrowserTools.js]: the first one (lines 11-172:
    [Open_web_page], [GET_DOM_ELEMENTS], [Click_Element], [Fill_Input],
    [Take_Screenshot], [Task_Complete], [Get_Page_HTML]) and the second one
    (lines 183-410: [goToPage], [takeScreenshot], [getPageElements],
    [fillField], [scrollPage], [typeText], [clickAtCoordinates],
    [dragAndDropElement], [getPageHTML], [findElementsByText]).

    JavaScript strings are sequences of UTF-16 code units ([jstr]).  The
    code runs against collaborators it does not define: the JavaScript
    engine (regular expressions, [toLowerCase], number printing), Node's
    [path] and [fs] modules, Playwright, the DOM and the [tool()] wrapper
    of [@openai/agents].  The engine services the code needs, with
    Playwright's table of MIME types, are a type class [JsRuntime]; Node's
    [path] functions
    are written out after Node's posix implementation; Playwright and the
    live page are a [world] threaded through a state-and-exception monad,
    in which every browser call may throw with a message chosen by the
    world ([w_fail]). *)

From Stdlib Require Import List String Ascii ZArith NArith Bool Lia QArith Qround.
Local Open Scope Z_scope.
Import ListNotations.

(** ** JavaScript strings *)

Definition jstr := list N.

Definition js (s : string) : jstr := map N_of_ascii (list_ascii_of_string s).

Definition ch (s : string) : N :=
  match s with String a _ => N_of_ascii a | EmptyString => 0%N end.

(** The double quote, written out to keep string literals free of it. *)
Definition dq : jstr := [34%N].

Fixpoint jstr_eqb (a b : jstr) : bool :=
  match a, b with
  | [], [] => true
  | x :: a', y :: b' => N.eqb x y && jstr_eqb a' b'
  | _, _ => false
  end.

Definition truthy (s : jstr) : bool := match s with [] => false | _ => true end.

(** [a || b] on a value that is a string or [undefined]. *)
Definition or_str (a : option jstr) (b : jstr) : jstr :=
  match a with Some s => if truthy s then s else b | None => b end.

(** [String.prototype.includes]. *)
Fixpoint starts_with (p s : jstr) : bool :=
  match p, s with
  | [], _ => true
  | x :: p', y :: s' => N.eqb x y && starts_with p' s'
  | _ :: _, [] => false
  end.

Fixpoint includes (s p : jstr) : bool :=
  starts_with p s || match s with [] => false | _ :: s' => includes s' p end.

(** Decimal form of a non-negative integer, as [`${n}`] prints it. *)
Fixpoint digits_rev (fuel : nat) (n : N) : jstr :=
  match fuel with
  | O => []
  | S f => (48 + n mod 10)%N :: (if (n <? 10)%N then [] else digits_rev f (n / 10))
  end.

Definition nat_to_dec (n : nat) : jstr :=
  rev (digits_rev (S (N.to_nat (N.log2 (N.of_nat n)))) (N.of_nat n)).

(** [String.prototype.trim]: white space and line terminators of ECMA-262. *)
Definition js_space (c : N) : bool :=
  existsb (N.eqb c) [9; 10; 11; 12; 13; 32; 160; 5760; 8232; 8233; 8239; 8287; 12288; 65279]%N
  || ((8192 <=? c) && (c <=? 8202))%N.

Fixpoint trim_start (s : jstr) : jstr :=
  match s with c :: s' => if js_space c then trim_start s' else s | [] => [] end.

Definition trim (s : jstr) : jstr := rev (trim_start (rev (trim_start s))).

(** ** The JavaScript engine services the code relies on *)

Class JsRuntime := {
  (** [new RegExp(source, flags)]: a [SyntaxError] message or the object. *)
  regexp : Type;
  regexp_new : jstr -> jstr -> jstr + regexp;
  (** [re.test(s)] for a regexp without the [g] and [y] flags. *)
  regexp_test : regexp -> jstr -> bool;
  (** [String.prototype.toLowerCase]. *)
  to_lower : jstr -> jstr;
  (** JavaScript numbers received as tool arguments, and [`${x}`]. *)
  num : Type;
  num_to_string : num -> jstr;
  (** Playwright's table of MIME types by file extension (the [types] map
      of its [mimeType.ts]), which maps ["png"] to ["image/png"]. *)
  mime_types : jstr -> option jstr;
  mime_types_png : mime_types (js "png") = Some (js "image/png")
}.

(** ** Node's [path] module (posix) *)

Module NodePath.

Definition slash : N := 47.
Definition dot : N := 46.

(** Split on ['/']: [split "a//b" = ["a"; ""; "b"]]. *)
Fixpoint split (s : jstr) : list jstr :=
  match s with
  | [] => [[]]
  | c :: s' =>
      let r := split s' in
      if N.eqb c slash then [] :: r
      else match r with x :: r' => (c :: x) :: r' | [] => [[c]] end
  end.

(** [normalizeString]: drop empty and ["."] segments, let [".."] remove
    the previous segment (kept when it cannot and [allowAboveRoot]). *)
Definition norm_step (allow_above : bool) (stk : list jstr) (seg : jstr) : list jstr :=
  if jstr_eqb seg [] || jstr_eqb seg [dot] then stk
  else if jstr_eqb seg [dot; dot] then
    match stk with
    | x :: stk' => if jstr_eqb x [dot; dot] then
                     (if allow_above then seg :: stk else stk) else stk'
    | [] => if allow_above then [seg] else []
    end
  else seg :: stk.

Fixpoint join_with (sep : jstr) (l : list jstr) : jstr :=
  match l with
  | [] => []
  | [x] => x
  | x :: l' => x ++ sep ++ join_with sep l'
  end.

Definition normalize_string (s : jstr) (allow_above : bool) : jstr :=
  join_with [slash] (rev (fold_left (norm_step allow_above) (split s) [])).

(** [path.normalize]. *)
Definition normalize (p : jstr) : jstr :=
  match p with
  | [] => [dot]
  | c0 :: _ =>
      let is_abs := N.eqb c0 slash in
      let trailing := N.eqb (last p 0%N) slash in
      let r := normalize_string p (negb is_abs) in
      match r with
      | [] => if is_abs then [slash] else if trailing then [dot; slash] else [dot]
      | _ => let r' := if trailing then r ++ [slash] else r in
             if is_abs then slash :: r' else r'
      end
  end.

(** [path.join(a, b)]. *)
Definition join (a b : jstr) : jstr :=
  let joined := match a, b with
                | [], _ => b
                | _, [] => a
                | _, _ => a ++ [slash] ++ b
                end in
  match joined with [] => [dot] | _ => normalize joined end.

(** [path.extname]: the scan of Node's implementation, from the right.
    The state is (startDot, startPart, end, matchedSlash, preDotState). *)
Record ext_state := { startDot : Z; startPart : Z; endp : Z; matchedSlash : bool;
                      preDotState : Z; stopped : bool }.

Definition ext_step (st : ext_state) (ic : Z * N) : ext_state :=
  let (i, c) := ic in
  if stopped st then st
  else if N.eqb c slash then
    (if matchedSlash st then st
     else {| startDot := startDot st; startPart := i + 1; endp := endp st;
             matchedSlash := matchedSlash st; preDotState := preDotState st;
             stopped := true |})
  else
    let st1 := if Z.eqb (endp st) (-1)
               then {| startDot := startDot st; startPart := startPart st; endp := i + 1;
                       matchedSlash := false; preDotState := preDotState st;
                       stopped := false |}
               else st in
    if N.eqb c dot then
      (if Z.eqb (startDot st1) (-1)
       then {| startDot := i; startPart := startPart st1; endp := endp st1;
               matchedSlash := matchedSlash st1; preDotState := preDotState st1;
               stopped := false |}
       else if negb (Z.eqb (preDotState st1) 1)
       then {| startDot := startDot st1; startPart := startPart st1; endp := endp st1;
               matchedSlash := matchedSlash st1; preDotState := 1; stopped := false |}
       else st1)
    else if negb (Z.eqb (startDot st1) (-1))
    then {| startDot := startDot st1; startPart := startPart st1; endp := endp st1;
            matchedSlash := matchedSlash st1; preDotState := -1; stopped := false |}
    else st1.

Fixpoint indexed (i : Z) (s : jstr) : list (Z * N) :=
  match s with [] => [] | c :: s' => (i, c) :: indexed (i + 1) s' end.

Definition slice (s : jstr) (a b : Z) : jstr :=
  firstn (Z.to_nat (b - a)) (skipn (Z.to_nat a) s).

Definition extname (p : jstr) : jstr :=
  let st := fold_left ext_step (rev (indexed 0 p))
              {| startDot := -1; startPart := 0; endp := -1; matchedSlash := true;
                 preDotState := 0; stopped := false |} in
  if Z.eqb (startDot st) (-1) || Z.eqb (endp st) (-1) || Z.eqb (preDotState st) 0
     || (Z.eqb (preDotState st) 1 && Z.eqb (startDot st) (endp st - 1)
         && Z.eqb (startDot st) (startPart st + 1))
  then []
  else slice p (startDot st) (endp st).

(** [path.dirname]. *)
Definition dirname (p : jstr) : jstr :=
  match p with
  | [] => [dot]
  | c0 :: _ =>
      let has_root := N.eqb c0 slash in
      (* scan i = length-1 .. 1 for the end of the directory part *)
      let fix scan (l : list (Z * N)) (matched : bool) : Z :=
        match l with
        | [] => -1
        | (i, c) :: l' =>
            if Z.eqb i 0 then -1
            else if N.eqb c slash then (if matched then scan l' matched else i)
            else scan l' false
        end in
      let e := scan (rev (indexed 0 p)) true in
      if Z.eqb e (-1) then (if has_root then [slash] else [dot])
      else if has_root && Z.eqb e 1 then [slash; slash]
      else firstn (Z.to_nat e) p
  end.

End NodePath.

(** ** The live page

    An element as the code and Playwright observe it.  [el_tag] is
    [tagName.toLowerCase()]; [el_in_body] says the element is a proper
    descendant of [document.body] (the nodes a tree walker rooted at
    [body] visits); [el_ax_role], [el_ax_hidden] and [el_ax_name] are the
    role, the hidden-from-accessibility state and the accessible name
    Playwright's role engine computes; [el_text] and [el_child_texts] are
    the whitespace-normalised text of the element and of each of its child
    elements, as Playwright's text engine compares them. *)

Record rect := { r_left : Q; r_top : Q; r_width : Q; r_height : Q }.

Record element := mkElement {
  el_tag : jstr;
  el_id : jstr;
  el_type : option jstr;
  el_role : option jstr;
  el_onclick : bool;
  el_aria_label : option jstr;
  el_title : option jstr;
  el_value : option jstr;
  el_inner_text : option jstr;
  el_offset_w : Z;
  el_offset_h : Z;
  el_rect : rect;
  el_in_body : bool;
  el_outer_html : jstr;
  el_ax_role : option jstr;
  el_ax_hidden : bool;
  el_ax_name : jstr;
  el_text : jstr;
  el_child_texts : list jstr
}.

Definition opt_eqb (o : option jstr) (s : jstr) : bool :=
  match o with Some t => jstr_eqb t s | None => false end.

(** [Math.round]. *)
Definition js_round (q : Q) : Z := Qfloor (q + (1 # 2)).

Definition Qpos (q : Q) : bool := negb (Qle_bool q 0).

Section World.

Context {RT : JsRuntime}.

(** Playwright locators built by [Click_Element]. *)
Inductive query :=
| QRole (role : jstr) (name : regexp)   (* page.getByRole(role, { name }) *)
| QText (re : regexp)                   (* page.getByText(re) *)
| QCss (sel : jstr).                    (* page.locator(sel) *)

(** Scripts passed to [page.evaluate]. *)
Inductive script := SDomElements | SPageElements | SFindText (search : jstr).

(** The calls the code makes on Playwright and on [fs]. *)
Inductive call :=
| CGoto (url : jstr) (wait_until : option jstr) (timeout : option Z)
| CWaitForLoadState (state : jstr) (timeout : Z)
| CEvaluate (s : script)
| CCount (q : query)
| CClickFirst (q : query)
| CPressSequentially (sel value : jstr) (delay : Z)
| CScreenshot (path : jstr)
| CContent
| CFill (sel text : jstr)
| CWheel (dx : Z) (dy : num)
| CKeyboardType (text : jstr)
| CMouseClick (x y : num)
| CDragAndDrop (src dst : jstr)
| CMkdir (path : jstr).

Inductive event := Did (c : call) | Clicked (e : element).

Record world := mkWorld {
  w_dom : list element;                 (* every element, in document order *)
  w_html : jstr;                        (* what page.content() serialises *)
  w_css : jstr -> jstr + list element;  (* page.locator(sel): error or matches *)
  w_fail : call -> option jstr;         (* the message a call throws, if any *)
  w_cwd : jstr;                         (* process.cwd() *)
  w_dirs : list jstr;                   (* existing directories *)
  w_files : list jstr;                  (* written files *)
  w_clock : nat -> Z;                   (* successive readings of the clock, in ms *)
  w_reads : nat;                        (* readings taken so far *)
  w_log : list event                    (* calls that went through, in order *)
}.

Definition log (e : event) (w : world) : world :=
  mkWorld (w_dom w) (w_html w) (w_css w) (w_fail w) (w_cwd w) (w_dirs w) (w_files w)
          (w_clock w) (w_reads w) (w_log w ++ [e]).

Definition add_dir (d : jstr) (w : world) : world :=
  mkWorld (w_dom w) (w_html w) (w_css w) (w_fail w) (w_cwd w) (w_dirs w ++ [d]) (w_files w)
          (w_clock w) (w_reads w) (w_log w).

Definition add_file (f : jstr) (w : world) : world :=
  mkWorld (w_dom w) (w_html w) (w_css w) (w_fail w) (w_cwd w) (w_dirs w) (w_files w ++ [f])
          (w_clock w) (w_reads w) (w_log w).

Definition tick (w : world) : world :=
  mkWorld (w_dom w) (w_html w) (w_css w) (w_fail w) (w_cwd w) (w_dirs w) (w_files w)
          (w_clock w) (S (w_reads w)) (w_log w).

(** *** The state-and-exception monad *)

Inductive res (A : Type) := Ok (a : A) | Exn (msg : jstr).
Arguments Ok {A}.
Arguments Exn {A}.

Definition M (A : Type) := world -> res A * world.

Definition ret {A} (a : A) : M A := fun w => (Ok a, w).

Definition bind {A B} (m : M A) (f : A -> M B) : M B :=
  fun w => match m w with
           | (Ok a, w') => f a w'
           | (Exn e, w') => (Exn e, w')
           end.

Definition throw {A} (msg : jstr) : M A := fun w => (Exn msg, w).

(** [try { m } catch (err) { h(err.message) }]. *)
Definition try_catch {A} (m : M A) (h : jstr -> M A) : M A :=
  fun w => match m w with
           | (Exn e, w') => h e w'
           | r => r
           end.

End World.

Arguments Ok {A} a.
Arguments Exn {A} msg.
Arguments QRole {RT}.
Arguments QText {RT}.
Arguments QCss {RT}.

Notation "x <- m ;; k" := (bind m (fun x => k))
  (at level 61, m at next level, right associativity).
Notation "m ;;; k" := (bind m (fun _ => k))
  (at level 61, right associativity).

(** ** Playwright, [fs] and the clock *)

Section Primitives.

Context {RT : JsRuntime}.

(** A browser call that throws the world's message or goes through. *)
Definition pw_call (c : call) : M unit :=
  fun w => match w_fail w c with
           | Some m => (Exn m, w)
           | None => (Ok tt, log (Did c) w)
           end.

(** [getByRole(role, { name: re })]: elements of that role, not hidden from
    the accessibility tree, whose accessible name the regexp accepts. *)
Definition role_match (role : jstr) (re : regexp) (e : element) : bool :=
  opt_eqb (el_ax_role e) role && negb (el_ax_hidden e) && regexp_test re (el_ax_name e).

(** [getByText(re)]: elements whose text the regexp accepts and none of
    whose child elements' text it accepts ([elementMatchesText] = ['self']). *)
Definition text_match (re : regexp) (e : element) : bool :=
  regexp_test re (el_text e) && forallb (fun t => negb (regexp_test re t)) (el_child_texts e).

(** The elements a locator resolves to, in document order. *)
Definition query_all (w : world) (q : query) : jstr + list element :=
  match q with
  | QRole role re => inr (filter (role_match role re) (w_dom w))
  | QText re => inr (filter (text_match re) (w_dom w))
  | QCss sel => w_css w sel
  end.

(** [await locator.count()]. *)
Definition pw_count (q : query) : M nat :=
  fun w => match w_fail w (CCount q) with
           | Some m => (Exn m, w)
           | None => match query_all w q with
                     | inl m => (Exn m, w)
                     | inr l => (Ok (List.length l), w)
                     end
           end.

(** [await locator.first().click()]. *)
Definition pw_click_first (q : query) : M unit :=
  fun w => match w_fail w (CClickFirst q) with
           | Some m => (Exn m, w)
           | None => match query_all w q with
                     | inl m => (Exn m, w)
                     | inr [] => (Exn (js "locator.click: Timeout 30000ms exceeded."), w)
                     | inr (e :: _) => (Ok tt, log (Clicked e) w)
                     end
           end.

(** [await page.evaluate(script)]: the script reads the document. *)
Definition pw_evaluate {A} (s : script) (f : list element -> A) : M A :=
  fun w => match w_fail w (CEvaluate s) with
           | Some m => (Exn m, w)
           | None => (Ok (f (w_dom w)), w)
           end.

(** [await page.content()]. *)
Definition pw_content : M jstr :=
  fun w => match w_fail w CContent with
           | Some m => (Exn m, w)
           | None => (Ok (w_html w), w)
           end.

(** [new RegExp(src, flags)], which throws a [SyntaxError]. *)
Definition regexp_new_m (src flags : jstr) : M regexp :=
  fun w => match regexp_new src flags with
           | inl m => (Exn m, w)
           | inr r => (Ok r, w)
           end.

(** [process.cwd()]. *)
Definition cwd : M jstr := fun w => (Ok (w_cwd w), w).

(** [fs.existsSync(p)]. *)
Definition exists_sync (p : jstr) : M bool :=
  fun w => (Ok (existsb (jstr_eqb p) (w_dirs w ++ w_files w)), w).

(** [fs.mkdirSync(p)]. *)
Definition mkdir_sync (p : jstr) : M unit :=
  fun w => match w_fail w (CMkdir p) with
           | Some m => (Exn m, w)
           | None => (Ok tt, add_dir p w)
           end.

Fixpoint ancestors (fuel : nat) (d : jstr) : list jstr :=
  match fuel with
  | O => []
  | S f => if jstr_eqb d [NodePath.slash] || jstr_eqb d [NodePath.dot] then []
           else d :: ancestors f (NodePath.dirname d)
  end.

(** [fs.promises.mkdir(d, { recursive: true })]. *)
Definition mkdir_recursive (d : jstr) (w : world) : world :=
  fold_right (fun a w => if existsb (jstr_eqb a) (w_dirs w) then w else add_dir a w)
             w (ancestors (List.length d) d).

(** The text after the last ['.'] of a path, if it has one. *)
Fixpoint after_last_dot (p : jstr) : option jstr :=
  match p with
  | [] => None
  | c :: p' => match after_last_dot p' with
               | Some e => Some e
               | None => if N.eqb c NodePath.dot then Some p' else None
               end
  end.

(** Playwright's [getMimeTypeForPath]: [path.lastIndexOf('.')] over the
    whole path, then [types.get(extension) || null]. *)
Definition mime_type_for_path (p : jstr) : option jstr :=
  match after_last_dot p with Some ext => mime_types ext | None => None end.

Definition unsupported_mime (m : jstr) : jstr :=
  js "path: unsupported mime type " ++ dq ++ m ++ dq.

(** Playwright's [determineScreenshotType] for a call with a [path] and no
    [type]: the error it throws, or the image type. *)
Definition screenshot_type (p : jstr) : jstr + jstr :=
  match mime_type_for_path p with
  | Some m => if jstr_eqb m (js "image/png") then inr (js "png")
              else if jstr_eqb m (js "image/jpeg") then inr (js "jpeg")
              else inl (unsupported_mime m)
  | None => inl (unsupported_mime (js "null"))
  end.

(** [await page.screenshot({ path })]: Playwright's client first derives
    the image type from the extension of [path] and throws before any
    browser call when it is neither PNG nor JPEG; otherwise it captures the
    viewport, creates the parent directory if needed and writes the file. *)
Definition pw_screenshot (p : jstr) : M unit :=
  fun w => match screenshot_type p with
           | inl e => (Exn e, w)
           | inr _ =>
               match w_fail w (CScreenshot p) with
               | Some m => (Exn m, w)
               | None => (Ok tt, log (Did (CScreenshot p))
                                     (add_file p (mkdir_recursive (NodePath.dirname p) w)))
               end
           end.

(** [new Date()]: the next clock reading, in ms since the epoch. *)
Definition date_now : M Z := fun w => (Ok (w_clock w (w_reads w)), tick w).

End Primitives.

(** *** [Date.prototype.toISOString] *)

Definition N_to_dec (n : N) : jstr :=
  rev (digits_rev (S (N.to_nat (N.log2 n))) n).

(** Zero-padded decimal of a non-negative integer. *)
Definition pad (width : nat) (n : Z) : jstr :=
  let d := N_to_dec (Z.to_N n) in repeat 48%N (width - List.length d) ++ d.

(** Days since 1970-01-01 to (year, month, day), proleptic Gregorian. *)
Definition civil_from_days (days : Z) : Z * Z * Z :=
  let z := days + 719468 in
  let era := z / 146097 in
  let doe := z - era * 146097 in
  let yoe := (doe - doe / 1460 + doe / 36524 - doe / 146096) / 365 in
  let doy := doe - (365 * yoe + yoe / 4 - yoe / 100) in
  let mp := (5 * doy + 2) / 153 in
  let d := doy - (153 * mp + 2) / 5 + 1 in
  let m := if mp <? 10 then mp + 3 else mp - 9 in
  let y := yoe + era * 400 + (if m <=? 2 then 1 else 0) in
  (y, m, d).

Definition year_string (y : Z) : jstr :=
  if (0 <=? y) && (y <=? 9999) then pad 4 y
  else (if y <? 0 then js "-" else js "+") ++ pad 6 (Z.abs y).

(** The part of the ISO string down to the second. *)
Definition iso_seconds (secs : Z) : jstr :=
  let days := secs / 86400 in
  let sod := secs mod 86400 in
  let '(y, mo, d) := civil_from_days days in
  year_string y ++ js "-" ++ pad 2 mo ++ js "-" ++ pad 2 d ++ js "T"
  ++ pad 2 (sod / 3600) ++ js ":" ++ pad 2 (sod / 60 mod 60) ++ js ":" ++ pad 2 (sod mod 60).

Definition to_iso_string (t : Z) : jstr :=
  iso_seconds (t / 1000) ++ js "." ++ pad 3 (t mod 1000) ++ js "Z".

(** [str.replace(/[:.]/g, '-')]. *)
Definition replace_colon_dot (s : jstr) : jstr :=
  map (fun c => if N.eqb c (ch ":") || N.eqb c (ch ".") then ch "-" else c) s.

(** [const timestamp = () => new Date().toISOString().replace(/[:.]/g, '-')]. *)
Definition timestamp {RT : JsRuntime} : M jstr :=
  t <- date_now;; ret (replace_colon_dot (to_iso_string t)).

(** ** What the tools hand back to the agent

    A tool's [execute] returns a string, except [GET_DOM_ELEMENTS], which
    returns an array of [{ text, selector }] objects. *)

Record dom_summary := { ds_text : jstr; ds_selector : jstr }.

Inductive toolret := RStr (s : jstr) | RElems (l : list dom_summary).

(** ASCII lower case, as attribute selectors compare the [type] attribute. *)
Definition ascii_lower (s : jstr) : jstr :=
  map (fun c => if ((65 <=? c) && (c <=? 90))%N then (c + 32)%N else c) s.

Definition is_tag (t : string) (e : element) : bool := jstr_eqb (el_tag e) (js t).

Definition type_is (t : string) (e : element) : bool :=
  match el_type e with Some v => jstr_eqb (ascii_lower v) (js t) | None => false end.

Definition role_is (r : string) (e : element) : bool := opt_eqb (el_role e) (js r).

(** [screenshotsDir] and the check-and-create both suites run on
    construction (lines 13-16 and 185-186). *)
Definition create_screenshots_dir {RT : JsRuntime} : M jstr :=
  c <- cwd;;
  let dir := NodePath.join c (js "screenshots") in
  ex <- exists_sync dir;;
  (if ex then ret tt else mkdir_sync dir);;;
  ret dir.

(** [html.length > lim ? html.slice(0, lim) + marker : html]. *)
Definition truncate (lim : N) (marker : jstr) (html : jstr) : jstr :=
  if N.ltb lim (N.of_nat (List.length html)) then firstn (N.to_nat lim) html ++ marker
  else html.

(** The [try { ... } catch (err) { return `<prefix>Failed to <what>. Details:
    ${err.message}` }] every guarded tool of both suites is written as. *)
Definition guarded {RT : JsRuntime} (prefix what : jstr) (body : M toolret) : M toolret :=
  try_catch body
    (fun m => ret (RStr (prefix ++ js "Failed to " ++ what ++ js ". Details: " ++ m))).

(** ** The first tool suite (lines 11-172) *)

Module V1.

Section Tools.

Context {RT : JsRuntime}.

Inductive tool :=
| Open_web_page (url : jstr)
| GET_DOM_ELEMENTS
| Click_Element (target : jstr)
| Fill_Input (selector value : jstr)
| Take_Screenshot (filename : option jstr)   (* null / undefined is None *)
| Task_Complete (summary : jstr)
| Get_Page_HTML.

Definition create_browser_tools : M jstr := create_screenshots_dir.

Definition open_web_page (url : jstr) : M toolret :=
  pw_call (CGoto url (Some (js "domcontentloaded")) (Some 60000));;;
  pw_call (CWaitForLoadState (js "networkidle") 30000);;;
  ret (RStr (js "Successfully opened web page: " ++ url)).

(** The selector of line 42. *)
Definition interactive (e : element) : bool :=
  is_tag "a" e || is_tag "button" e
  || (is_tag "input" e && type_is "submit" e) || (is_tag "input" e && type_is "button" e)
  || role_is "button" e || role_is "link" e.

(** The script of lines 39-53: [forEach] over [querySelectorAll], pushing
    the visible ones. *)
Definition dom_elements_script (dom : list element) : list dom_summary :=
  fold_left
    (fun acc el =>
       if (0 <? el_offset_w el) && (0 <? el_offset_h el) then
         acc ++ [{| ds_text := or_str (el_inner_text el)
                                 (or_str (el_value el) (or_str (el_aria_label el) []));
                    ds_selector := el_tag el ++ (if truthy (el_id el)
                                                 then js "#" ++ el_id el else []) |}]
       else acc)
    (filter interactive dom) [].

Definition get_dom_elements : M toolret :=
  elements <- pw_evaluate SDomElements dom_elements_script;;
  ret (RElems elements).

(** One step of the cascade: count, and click the first match if any. *)
Definition try_locator (q : query) (msg : jstr) (k : M toolret) : M toolret :=
  n <- pw_count q;;
  if Nat.ltb 0 n then pw_click_first q;;; ret (RStr msg) else k.

Definition click_element (target : jstr) : M toolret :=
  guarded (js "Error: ") (js "click " ++ dq ++ target ++ dq)
    (re1 <- regexp_new_m target (js "i");;
     try_locator (QRole (js "button") re1)
       (js "Successfully clicked button with text: " ++ target)
     (re2 <- regexp_new_m target (js "i");;
      try_locator (QRole (js "link") re2)
        (js "Successfully clicked link with text: " ++ target)
      (re3 <- regexp_new_m (js "^" ++ target ++ js "$") (js "i");;
       try_locator (QText re3)
         (js "Successfully clicked element with text: " ++ target)
       (try_locator (QCss target)
          (js "Successfully clicked CSS selector: " ++ target)
        (ret (RStr (js "Error: No element found for target " ++ dq ++ target ++ dq
                    ++ js "."))))))).

Definition fill_input (selector value : jstr) : M toolret :=
  guarded (js "Error: ") (js "fill input " ++ dq ++ selector ++ dq)
    (pw_call (CPressSequentially selector value 50);;;
     ret (RStr (js "Successfully typed '" ++ value ++ js "' into '" ++ selector ++ js "'."))).

Definition take_screenshot (dir : jstr) (filename : option jstr) : M toolret :=
  guarded (js "Error: ") (js "take screenshot")
    (final_filename <- (match filename with
                        | Some f => if truthy f then ret f
                                    else (ts <- timestamp;; ret (js "screenshot-" ++ ts ++ js ".png"))
                        | None => ts <- timestamp;; ret (js "screenshot-" ++ ts ++ js ".png")
                        end);;
     let file_path := NodePath.join dir final_filename in
     pw_screenshot file_path;;;
     ret (RStr (js "Successfully saved screenshot to " ++ file_path))).

Definition task_complete (summary : jstr) : M toolret :=
  ret (RStr (js "Task successfully marked as complete.")).

Definition get_page_html : M toolret :=
  guarded (js "Error: ") (js "get page HTML")
    (html <- pw_content;;
     ret (RStr (truncate 20000 (js "... [HTML Truncated]") html))).

(** [execute] of each tool; [dir] is the [screenshotsDir] of the closure. *)
Definition execute (dir : jstr) (t : tool) : M toolret :=
  match t with
  | Open_web_page url => open_web_page url
  | GET_DOM_ELEMENTS => get_dom_elements
  | Click_Element target => click_element target
  | Fill_Input selector value => fill_input selector value
  | Take_Screenshot filename => take_screenshot dir filename
  | Task_Complete summary => task_complete summary
  | Get_Page_HTML => get_page_html
  end.

End Tools.

End V1.

(** ** [JSON.stringify(value, null, 2)] for the matches of [findElementsByText] *)

Record text_match_info := {
  tm_tag : jstr; tm_text : jstr; tm_selector : jstr; tm_x : Z; tm_y : Z }.

Definition Z_to_dec (z : Z) : jstr :=
  if z <? 0 then js "-" ++ N_to_dec (Z.to_N (- z)) else N_to_dec (Z.to_N z).

Definition hex_digit (n : N) : N := if (n <? 10)%N then (48 + n)%N else (87 + n)%N.

Definition esc_u (c : N) : jstr :=
  js "\u" ++ map (fun k => hex_digit ((c / 2 ^ (4 * k)) mod 16)) [3; 2; 1; 0]%N.

Definition is_high (c : N) : bool := ((55296 <=? c) && (c <=? 56319))%N.
Definition is_low (c : N) : bool := ((56320 <=? c) && (c <=? 57343))%N.

Definition json_unit (c : N) : jstr :=
  if N.eqb c 34 then js "\" ++ dq
  else if N.eqb c 92 then js "\\"
  else if N.eqb c 8 then js "\b"
  else if N.eqb c 12 then js "\f"
  else if N.eqb c 10 then js "\n"
  else if N.eqb c 13 then js "\r"
  else if N.eqb c 9 then js "\t"
  else if (c <? 32)%N then esc_u c
  else [c].

(** QuoteJSONString: lone surrogates are escaped, pairs are kept. *)
Fixpoint json_chars (s : jstr) : jstr :=
  match s with
  | [] => []
  | c :: s' =>
      if is_high c then
        match s' with
        | d :: s'' => if is_low d then c :: d :: json_chars s'' else esc_u c ++ json_chars s'
        | [] => esc_u c
        end
      else if is_low c then esc_u c ++ json_chars s'
      else json_unit c ++ json_chars s'
  end.

Definition json_string (s : jstr) : jstr := dq ++ json_chars s ++ dq.

Definition nl : jstr := [10%N].
Definition indent (n : nat) : jstr := repeat 32%N n.

Definition json_match (m : text_match_info) : jstr :=
  js "{" ++ nl
  ++ indent 4 ++ json_string (js "tag") ++ js ": " ++ json_string (tm_tag m) ++ js "," ++ nl
  ++ indent 4 ++ json_string (js "text") ++ js ": " ++ json_string (tm_text m) ++ js "," ++ nl
  ++ indent 4 ++ json_string (js "selector") ++ js ": " ++ json_string (tm_selector m)
  ++ js "," ++ nl
  ++ indent 4 ++ json_string (js "coords") ++ js ": {" ++ nl
  ++ indent 6 ++ json_string (js "x") ++ js ": " ++ Z_to_dec (tm_x m) ++ js "," ++ nl
  ++ indent 6 ++ json_string (js "y") ++ js ": " ++ Z_to_dec (tm_y m) ++ nl
  ++ indent 4 ++ js "}" ++ nl
  ++ indent 2 ++ js "}".

Definition json_stringify_matches (l : list text_match_info) : jstr :=
  match l with
  | [] => js "[]"
  | _ => js "[" ++ nl ++ indent 2 ++ NodePath.join_with (js "," ++ nl ++ indent 2) (map json_match l)
         ++ nl ++ js "]"
  end.

(** ** The second tool suite (lines 183-410) *)

Module V2.

Section Tools.

Context {RT : JsRuntime}.

Inductive tool :=
| goToPage (url : jstr)
| takeScreenshot (filename : option jstr)   (* null / undefined is None *)
| getPageElements
| fillField (selector text : jstr)
| scrollPage (scrollAmount : num)
| typeText (text : jstr)
| clickAtCoordinates (x y : num)
| dragAndDropElement (sourceSelector targetSelector : jstr)
| getPageHTML
| findElementsByText (text : jstr).

Definition create_browser_tools : M jstr := create_screenshots_dir.

Definition go_to_page (url : jstr) : M toolret :=
  guarded [] (js "navigate or find the essential page elements")
    (pw_call (CGoto url None None);;;
     ret (RStr (js "Successfully navigated to " ++ url ++ js " and the page is ready."))).

(** The file name [takeScreenshot] writes (lines 223-228). *)
Definition screenshot_basename (filename : option jstr) : M jstr :=
  base <- (match filename with
           | Some f => if truthy f then ret f else (ts <- timestamp;; ret (js "screenshot-" ++ ts))
           | None => ts <- timestamp;; ret (js "screenshot-" ++ ts)
           end);;
  ret (if jstr_eqb (NodePath.extname base) [] then base ++ js ".png" else base).

Definition take_screenshot (dir : jstr) (filename : option jstr) : M toolret :=
  guarded [] (js "take screenshot")
    (base_filename <- screenshot_basename filename;;
     let file_path := NodePath.join dir base_filename in
     pw_screenshot file_path;;;
     ret (RStr (js "Screenshot saved successfully at " ++ file_path))).

(** The selector of line 251. *)
Definition interactive (e : element) : bool :=
  is_tag "a" e || is_tag "button" e
  || (is_tag "input" e && type_is "submit" e) || (is_tag "input" e && type_is "button" e)
  || role_is "button" e || el_onclick e.

Record page_element := { pe_id : nat; pe_text : jstr; pe_role : jstr; pe_x : Z; pe_y : Z }.

(** The script of lines 249-262. *)
Definition page_elements_script (dom : list element) : list page_element :=
  let els := filter interactive dom in
  map (fun p : element * nat =>
         let (el, index) := p in
         let r := el_rect el in
         {| pe_id := index + 1;
            pe_text := or_str (el_inner_text el)
                         (or_str (el_aria_label el) (or_str (el_title el) []));
            pe_role := el_tag el;
            pe_x := js_round (r_left r + r_width r / 2);
            pe_y := js_round (r_top r + r_height r / 2) |})
      (combine els (seq 0 (List.length els))).

Definition get_page_elements : M toolret :=
  guarded [] (js "get page elements")
    (elements <- pw_evaluate SPageElements page_elements_script;;
     ret (RStr (js "Found " ++ nat_to_dec (List.length elements) ++ js " interactive elements."))).

Definition fill_field (selector text : jstr) : M toolret :=
  guarded [] (js "fill field")
    (pw_call (CFill selector text);;;
     ret (RStr (js "Successfully filled " ++ dq ++ selector ++ dq ++ js "."))).

Definition scroll_page (amount : num) : M toolret :=
  guarded [] (js "scroll")
    (pw_call (CWheel 0 amount);;;
     ret (RStr (js "Successfully scrolled by " ++ num_to_string amount ++ js " pixels."))).

Definition type_text (text : jstr) : M toolret :=
  guarded [] (js "type text")
    (pw_call (CKeyboardType text);;;
     ret (RStr (js "Successfully typed " ++ dq ++ text ++ dq ++ js "."))).

Definition click_at_coordinates (x y : num) : M toolret :=
  guarded [] (js "click at coordinates")
    (pw_call (CMouseClick x y);;;
     ret (RStr (js "Successfully clicked at (" ++ num_to_string x ++ js ", "
                ++ num_to_string y ++ js ")."))).

Definition drag_and_drop (src dst : jstr) : M toolret :=
  guarded [] (js "drag and drop")
    (pw_call (CDragAndDrop src dst);;;
     ret (RStr (js "Successfully dragged " ++ dq ++ src ++ dq ++ js " to " ++ dq ++ dst ++ dq
                ++ js "."))).

Definition get_page_html : M toolret :=
  guarded [] (js "get page HTML")
    (html <- pw_content;;
     ret (RStr (truncate 10000 (js "... [truncated]") html))).

(** The script of lines 381-399: a tree walker over the elements below
    [document.body], pushing each match. *)
Definition find_text_script (search_text : jstr) (dom : list element) : list text_match_info :=
  fold_left
    (fun matches node =>
       match el_inner_text node with
       | Some it =>
           if truthy it && includes (to_lower it) (to_lower search_text) then
             let r := el_rect node in
             if Qpos (r_width r) && Qpos (r_height r) then
               matches ++ [{| tm_tag := el_tag node;
                              tm_text := trim it;
                              tm_selector := firstn 100 (el_outer_html node);
                              tm_x := js_round (r_left r + r_width r / 2);
                              tm_y := js_round (r_top r + r_height r / 2) |}]
             else matches
           else matches
       | None => matches
       end)
    (filter el_in_body dom) [].

Definition find_elements_by_text (text : jstr) : M toolret :=
  guarded [] (js "search elements")
    (elements <- pw_evaluate (SFindText text) (find_text_script text);;
     match elements with
     | [] => ret (RStr (js "No elements found with text " ++ dq ++ text ++ dq ++ js "."))
     | _ => ret (RStr (js "Found " ++ nat_to_dec (List.length elements)
                       ++ js " elements with text " ++ dq ++ text ++ dq ++ js "." ++ nl
                       ++ js "Details (first 5):" ++ nl
                       ++ json_stringify_matches (firstn 5 elements)))
     end).

Definition execute (dir : jstr) (t : tool) : M toolret :=
  match t with
  | goToPage url => go_to_page url
  | takeScreenshot filename => take_screenshot dir filename
  | getPageElements => get_page_elements
  | fillField selector text => fill_field selector text
  | scrollPage amount => scroll_page amount
  | typeText text => type_text text
  | clickAtCoordinates x y => click_at_coordinates x y
  | dragAndDropElement s t => drag_and_drop s t
  | getPageHTML => get_page_html
  | findElementsByText text => find_elements_by_text text
  end.

End Tools.

End V2.

(** ** A concrete runtime for running the tools on examples

    [MiniRegExp] implements the fragment of JavaScript regular expressions
    made of literals, identity escapes, [.], [^], [$], groups [( )] and
    [(?: )], alternation and the quantifiers [*], [+], [?] (greedy or lazy),
    with the [i] flag, and reports JavaScript's [SyntaxError] messages for
    unterminated groups, unmatched [)] and quantifiers with nothing to
    repeat.  Other syntax (classes, braces, class escapes, lookarounds) is
    outside the fragment and refused.  Matching is by derivatives, with [^]
    and [$] true at the start and end of the input. *)

Module MiniRegExp.

Inductive re := RNone | REps | RChar (c : N) | RAny | RBol | REol
              | RCat (a b : re) | RAlt (a b : re) | RStar (a : re).

Definition cat (a b : re) : re :=
  match a, b with
  | RNone, _ | _, RNone => RNone
  | REps, _ => b
  | _, REps => a
  | _, _ => RCat a b
  end.

Definition alt (a b : re) : re :=
  match a, b with RNone, _ => b | _, RNone => a | _, _ => RAlt a b end.

Definition is_c (s : string) (c : N) : bool := N.eqb c (ch s).

Definition is_alnum (c : N) : bool :=
  ((48 <=? c) && (c <=? 57) || (65 <=? c) && (c <=? 90) || (97 <=? c) && (c <=? 122))%N
  || is_c "_" c.

Inductive perr := Syntax (reason : jstr) | Unsupported.

Definition p_result (A : Type) := (perr + (A * jstr))%type.

Fixpoint p_disj (fuel : nat) (s : jstr) : p_result re :=
  match fuel with
  | O => inl Unsupported
  | S f =>
      match p_seq f s with
      | inl e => inl e
      | inr (r, c :: rest) =>
          if is_c "|" c then
            match p_disj f rest with
            | inl e => inl e
            | inr (r2, rest2) => inr (RAlt r r2, rest2)
            end
          else inr (r, c :: rest)
      | inr (r, []) => inr (r, [])
      end
  end
with p_seq (fuel : nat) (s : jstr) : p_result re :=
  match fuel with
  | O => inl Unsupported
  | S f =>
      match s with
      | [] => inr (REps, [])
      | c :: _ =>
          if is_c "|" c || is_c ")" c then inr (REps, s)
          else match p_term f s with
               | inl e => inl e
               | inr (t, rest) =>
                   match p_seq f rest with
                   | inl e => inl e
                   | inr (r, rest2) => inr (RCat t r, rest2)
                   end
               end
      end
  end
with p_term (fuel : nat) (s : jstr) : p_result re :=
  match fuel with
  | O => inl Unsupported
  | S f =>
      match p_atom f s with
      | inl e => inl e
      | inr ((a, quantifiable), rest) =>
          match rest with
          | q :: rest' =>
              if is_c "*" q || is_c "+" q || is_c "?" q then
                if quantifiable then
                  let rest'' := match rest' with
                                | l :: r'' => if is_c "?" l then r'' else rest'
                                | [] => [] end in
                  inr (if is_c "*" q then RStar a
                       else if is_c "+" q then RCat a (RStar a) else RAlt a REps, rest'')
                else inl (Syntax (js "Nothing to repeat"))
              else if is_c "{" q then inl Unsupported
              else inr (a, rest)
          | [] => inr (a, [])
          end
      end
  end
with p_atom (fuel : nat) (s : jstr) : p_result (re * bool) :=
  match fuel with
  | O => inl Unsupported
  | S f =>
      match s with
      | [] => inl Unsupported
      | c :: s' =>
          if is_c "(" c then
            let inner := match s' with
                         | q :: c2 :: s'' => if is_c "?" q then
                                               (if is_c ":" c2 then Some s'' else None)
                                             else Some s'
                         | [q] => if is_c "?" q then None else Some s'
                         | [] => Some s'
                         end in
            match inner with
            | None => inl Unsupported
            | Some s2 =>
                match p_disj f s2 with
                | inl e => inl e
                | inr (r, d :: rest) =>
                    if is_c ")" d then inr ((r, true), rest)
                    else inl (Syntax (js "Unterminated group"))
                | inr (_, []) => inl (Syntax (js "Unterminated group"))
                end
            end
          else if is_c "." c then inr ((RAny, true), s')
          else if is_c "^" c then inr ((RBol, false), s')
          else if is_c "$" c then inr ((REol, false), s')
          else if is_c "*" c || is_c "+" c || is_c "?" c then
            inl (Syntax (js "Nothing to repeat"))
          else if is_c "\" c then
            match s' with
            | [] => inl (Syntax (js "\ at end of pattern"))
            | d :: s'' => if is_alnum d then inl Unsupported else inr ((RChar d, true), s'')
            end
          else if is_c "[" c || is_c "]" c || is_c "{" c || is_c "}" c then inl Unsupported
          else inr ((RChar c, true), s')
      end
  end.

(** [new RegExp(src, flags)] within the fragment. *)
Definition compile (src flags : jstr) : perr + (re * bool) :=
  let icase := if jstr_eqb flags [] then Some false
               else if jstr_eqb flags (js "i") then Some true else None in
  match icase with
  | None => inl Unsupported
  | Some ic =>
      match p_disj (4 * List.length src + 4) src with
      | inl e => inl e
      | inr (r, []) => inr (r, ic)
      | inr (_, _ :: _) => inl (Syntax (js "Unmatched ')'"))
      end
  end.

Definition canon (c : N) : N := if ((97 <=? c) && (c <=? 122))%N then (c - 32)%N else c.

Definition line_terminator (c : N) : bool :=
  N.eqb c 10 || N.eqb c 13 || N.eqb c 8232 || N.eqb c 8233.

Fixpoint nullable (at_start at_end : bool) (r : re) : bool :=
  match r with
  | RNone | RChar _ | RAny => false
  | REps | RStar _ => true
  | RBol => at_start
  | REol => at_end
  | RCat a b => nullable at_start at_end a && nullable at_start at_end b
  | RAlt a b => nullable at_start at_end a || nullable at_start at_end b
  end.

Fixpoint deriv (icase at_start : bool) (c : N) (r : re) : re :=
  match r with
  | RChar d => if (if icase then N.eqb (canon c) (canon d) else N.eqb c d) then REps else RNone
  | RAny => if line_terminator c then RNone else REps
  | RNone | REps | RBol | REol => RNone
  | RCat a b => alt (cat (deriv icase at_start c a) b)
                    (if nullable at_start false a then deriv icase at_start c b else RNone)
  | RAlt a b => alt (deriv icase at_start c a) (deriv icase at_start c b)
  | RStar a => cat (deriv icase at_start c a) (RStar a)
  end.

(** A match of [r] starting where [s] starts. *)
Fixpoint run (icase first : bool) (r : re) (s : jstr) : bool :=
  nullable first (match s with [] => true | _ => false end) r
  || match s with
     | [] => false
     | c :: s' => run icase false (deriv icase first c r) s'
     end.

(** [re.test(s)]: a match starting anywhere. *)
Fixpoint search (icase first : bool) (r : re) (s : jstr) : bool :=
  run icase first r s || match s with [] => false | _ :: s' => search icase false r s' end.

Definition test (p : re * bool) (s : jstr) : bool := search (snd p) true (fst p) s.

Definition regexp_new (src flags : jstr) : jstr + (re * bool) :=
  match compile src flags with
  | inr p => inr p
  | inl (Syntax reason) =>
      inl (js "Invalid regular expression: /" ++ src ++ js "/" ++ flags ++ js ": " ++ reason)
  | inl Unsupported =>
      inl (js "Invalid regular expression: /" ++ src ++ js "/" ++ flags
           ++ js ": outside the supported fragment")
  end.

End MiniRegExp.

(** The concrete runtime: [MiniRegExp], ASCII lower case, integer numbers. *)
(** A few entries of Playwright's MIME table. *)
Definition example_mime_types (ext : jstr) : option jstr :=
  if jstr_eqb ext (js "png") then Some (js "image/png")
  else if jstr_eqb ext (js "jpeg") || jstr_eqb ext (js "jpg") then Some (js "image/jpeg")
  else if jstr_eqb ext (js "txt") then Some (js "text/plain")
  else if jstr_eqb ext (js "html") then Some (js "text/html")
  else if jstr_eqb ext (js "pdf") then Some (js "application/pdf")
  else None.

#[local] Instance example_runtime : JsRuntime := {|
  regexp := MiniRegExp.re * bool;
  regexp_new := MiniRegExp.regexp_new;
  regexp_test := MiniRegExp.test;
  to_lower := ascii_lower;
  num := Z;
  num_to_string := Z_to_dec;
  mime_types := example_mime_types;
  mime_types_png := eq_refl
|}.

(** ** Example pages *)

Definition leaf (tag text : string) (ax_role : option string) (w h : Z) : element :=
  {| el_tag := js tag; el_id := []; el_type := None; el_role := None; el_onclick := false;
     el_aria_label := None; el_title := None; el_value := None;
     el_inner_text := Some (js text); el_offset_w := w; el_offset_h := h;
     el_rect := {| r_left := 0; r_top := 0; r_width := inject_Z w; r_height := inject_Z h |};
     el_in_body := true;
     el_outer_html := js "<" ++ js tag ++ js ">" ++ js text ++ js "</" ++ js tag ++ js ">";
     el_ax_role := option_map js ax_role; el_ax_hidden := false; el_ax_name := js text;
     el_text := js text; el_child_texts := [] |}.

Definition home : jstr := js "/home/user".

(** A page in a process started in [/home/user], whose clock reads
    2026-10-15T19:37:00.123Z and where CSS selectors match nothing. *)
Definition example_world {RT : JsRuntime} (dom : list element) (html : jstr)
           (fail : call -> option jstr) : world :=
  mkWorld dom html (fun _ => inr []) fail home [home] [] (fun _ => 1792093020123) 0 [].

Definition no_fail {RT : JsRuntime} : call -> option jstr := fun _ => None.

(** * Properties *)

(** ** The monad *)

Section MonadFacts.

Context {RT : JsRuntime}.

Lemma try_catch_ok {A} (m : M A) h w a w' :
  m w = (Ok a, w') -> try_catch m h w = (Ok a, w').
Proof. unfold try_catch; intros ->; reflexivity. Qed.

Lemma try_catch_exn {A} (m : M A) h w e w' :
  m w = (Exn e, w') -> try_catch m h w = h e w'.
Proof. unfold try_catch; intros ->; reflexivity. Qed.

(** A guarded tool never throws, and reports a thrown message [m] as
    [prefix ++ "Failed to " ++ what ++ ". Details: " ++ m]. *)
Lemma guarded_exn prefix what body w m w' :
  body w = (Exn m, w') ->
  guarded prefix what body w
  = (Ok (RStr (prefix ++ js "Failed to " ++ what ++ js ". Details: " ++ m)), w').
Proof. unfold guarded, try_catch; intros ->; reflexivity. Qed.

Lemma guarded_ok prefix what body w r w' :
  body w = (Ok r, w') -> guarded prefix what body w = (Ok r, w').
Proof. unfold guarded, try_catch; intros ->; reflexivity. Qed.

(** Every tool body returns a string. *)
Definition returns_str (m : M toolret) : Prop :=
  forall w, match fst (m w) with Ok (RStr _) | Exn _ => True | Ok (RElems _) => False end.

Lemma guarded_str prefix what body :
  returns_str body -> forall w, exists s, fst (guarded prefix what body w) = Ok (RStr s).
Proof.
  intros H w; specialize (H w); unfold guarded, try_catch.
  destruct (body w) as [[[s|l]|e] w']; simpl in *; try contradiction; eauto.
Qed.

Lemma returns_str_ret s : returns_str (ret (RStr s)).
Proof. intros w; exact I. Qed.

Lemma returns_str_bind {A} (m : M A) (f : A -> M toolret) :
  (forall a, returns_str (f a)) -> returns_str (bind m f).
Proof.
  intros H w; unfold bind; destruct (m w) as [[a|e] w']; [apply H | exact I].
Qed.

(** *** Frame: which calls may touch the directories *)

Definition keeps_dirs {A} (m : M A) : Prop := forall w, w_dirs (snd (m w)) = w_dirs w.

Lemma keeps_ret {A} (a : A) : keeps_dirs (ret a).
Proof. intros w; reflexivity. Qed.

Lemma keeps_throw {A} msg : keeps_dirs (@throw _ A msg).
Proof. intros w; reflexivity. Qed.

Lemma keeps_bind {A B} (m : M A) (f : A -> M B) :
  keeps_dirs m -> (forall a, keeps_dirs (f a)) -> keeps_dirs (bind m f).
Proof.
  intros Hm Hf w; unfold bind; specialize (Hm w).
  destruct (m w) as [[a|e] w'] eqn:E; simpl in *; [rewrite Hf|]; exact Hm.
Qed.

Lemma keeps_try_catch {A} (m : M A) h :
  keeps_dirs m -> (forall e, keeps_dirs (h e)) -> keeps_dirs (try_catch m h).
Proof.
  intros Hm Hh w; unfold try_catch; specialize (Hm w).
  destruct (m w) as [[a|e] w'] eqn:E; simpl in *; [|rewrite Hh]; exact Hm.
Qed.

Lemma keeps_guarded prefix what body : keeps_dirs body -> keeps_dirs (guarded prefix what body).
Proof. intros H; apply keeps_try_catch; [exact H | intros; apply keeps_ret]. Qed.

Lemma keeps_pw_call c : keeps_dirs (pw_call c).
Proof. intros w; unfold pw_call; destruct (w_fail w c); reflexivity. Qed.

Lemma keeps_pw_count q : keeps_dirs (pw_count q).
Proof.
  intros w; unfold pw_count; destruct (w_fail w (CCount q)); [|destruct (query_all w q)];
    reflexivity.
Qed.

Lemma keeps_pw_click_first q : keeps_dirs (pw_click_first q).
Proof.
  intros w; unfold pw_click_first.
  destruct (w_fail w (CClickFirst q)); [|destruct (query_all w q) as [|[|]]]; reflexivity.
Qed.

Lemma keeps_pw_evaluate {A} s (f : list element -> A) : keeps_dirs (pw_evaluate s f).
Proof. intros w; unfold pw_evaluate; destruct (w_fail w (CEvaluate s)); reflexivity. Qed.

Lemma keeps_pw_content : keeps_dirs pw_content.
Proof. intros w; unfold pw_content; destruct (w_fail w CContent); reflexivity. Qed.

Lemma keeps_regexp_new_m src flags : keeps_dirs (regexp_new_m src flags).
Proof. intros w; unfold regexp_new_m; destruct (regexp_new src flags); reflexivity. Qed.

Lemma keeps_cwd : keeps_dirs cwd.
Proof. intros w; reflexivity. Qed.

End MonadFacts.

Create HintDb frame.
#[export] Hint Resolve keeps_ret keeps_throw keeps_pw_call keeps_pw_count keeps_pw_click_first
  keeps_pw_evaluate keeps_pw_content keeps_regexp_new_m keeps_cwd returns_str_ret : frame.

(** Decompose a computation into the primitive calls it makes. *)
Ltac frame :=
  repeat first
    [ progress intros
    | apply keeps_bind
    | apply keeps_guarded
    | apply keeps_try_catch
    | apply returns_str_bind
    | solve [ auto with frame ]
    | match goal with
      | |- keeps_dirs (if ?b then _ else _) => destruct b
      | |- returns_str (if ?b then _ else _) => destruct b
      | |- keeps_dirs (match ?x with _ => _ end) => destruct x
      | |- returns_str (match ?x with _ => _ end) => destruct x
      end
    | unfold V1.try_locator ].

(** ** Frame of the tools on the directories *)

Lemma v1_keeps_dirs {RT : JsRuntime} (dir : jstr) (t : V1.tool) :
  keeps_dirs (V1.execute dir t) \/ exists f, t = V1.Take_Screenshot f.
Proof.
  destruct t; [left..| right; eauto | left | left]; unfold V1.execute;
    unfold V1.open_web_page, V1.get_dom_elements, V1.click_element, V1.fill_input,
      V1.task_complete, V1.get_page_html; frame.
Qed.

Lemma v2_keeps_dirs {RT : JsRuntime} (dir : jstr) (t : V2.tool) :
  keeps_dirs (V2.execute dir t) \/ exists f, t = V2.takeScreenshot f.
Proof.
  destruct t; [left | right; eauto | left..]; unfold V2.execute;
    unfold V2.go_to_page, V2.get_page_elements, V2.fill_field, V2.scroll_page, V2.type_text,
      V2.click_at_coordinates, V2.drag_and_drop, V2.get_page_html, V2.find_elements_by_text;
    frame.
Qed.

Lemma create_screenshots_dir_absent {RT : JsRuntime} (w : world) :
  let dir := NodePath.join (w_cwd w) (js "screenshots") in
  existsb (jstr_eqb dir) (w_dirs w ++ w_files w) = false ->
  w_fail w (CMkdir dir) = None ->
  create_screenshots_dir w = (Ok dir, add_dir dir w).
Proof.
  intros dir Hex Hmk; unfold create_screenshots_dir, bind, cwd, exists_sync, mkdir_sync; simpl.
  fold dir; rewrite Hex, Hmk; reflexivity.
Qed.

(** The markup a [getMarkup(maxLength)] following the spec's words returns. *)
Definition getMarkup_spec (maxLength : N) (marker : jstr) (doc : jstr) : jstr :=
  if (N.of_nat (List.length doc) <=? maxLength)%N then doc
  else firstn (N.to_nat maxLength) doc ++ marker.

(** ** C4: markup truncation *)

(** C4 (counterexample): the limit is not the caller's.  Asked for a
    document of 500 characters, both markup tools return all 500 of them,
    where [getMarkup(maxLength = 100)] would cut it at 100 and append the
    marker; neither tool takes a length parameter. *)
Lemma C4_no_caller_limit :
  let doc := repeat 97%N 500 in
  let w := @example_world example_runtime [] doc no_fail in
  fst (V1.execute home V1.Get_Page_HTML w) = Ok (RStr doc)
  /\ fst (V2.execute home V2.getPageHTML w) = Ok (RStr doc)
  /\ doc <> getMarkup_spec 100 (js "... [HTML Truncated]") doc
  /\ doc <> getMarkup_spec 100 (js "... [truncated]") doc.
Proof. vm_compute; repeat split; congruence. Qed.

(** C4 (amended): [Get_Page_HTML] returns [page.content()] unchanged when
    it has at most 20000 code units, and otherwise its first 20000 code
    units followed by ["... [HTML Truncated]"]; [getPageHTML] does the same
    with 10000 and ["... [truncated]"].  The limits are fixed in the code. *)
Theorem get_page_html_truncates_at_fixed_limit {RT : JsRuntime} (dir : jstr) (w : world) :
  w_fail w CContent = None ->
  fst (V1.execute dir V1.Get_Page_HTML w)
  = Ok (RStr (getMarkup_spec 20000 (js "... [HTML Truncated]") (w_html w)))
  /\ fst (V2.execute dir V2.getPageHTML w)
     = Ok (RStr (getMarkup_spec 10000 (js "... [truncated]") (w_html w))).
Proof.
  intros H.
  unfold V1.execute, V2.execute, V1.get_page_html, V2.get_page_html, guarded, try_catch, bind,
    pw_content; rewrite H; cbv beta iota zeta delta [fst ret].
  unfold truncate, getMarkup_spec.
  split; do 2 f_equal; [destruct (N.leb_spec (N.of_nat (List.length (w_html w))) 20000)
                      | destruct (N.leb_spec (N.of_nat (List.length (w_html w))) 10000)];
    first [ rewrite (proj2 (N.ltb_ge _ _) H0) | rewrite (proj2 (N.ltb_lt _ _) H0) ];
    reflexivity.
Qed.

Lemma get_page_html_truncates_at_fixed_limit_witness :
  @w_fail example_runtime (example_world [] (js "<html></html>") no_fail) CContent = None
  /\ fst (V1.execute home V1.Get_Page_HTML (example_world [] (js "<html></html>") no_fail))
     = Ok (RStr (getMarkup_spec 20000 (js "... [HTML Truncated]") (js "<html></html>")))
  /\ fst (V2.execute home V2.getPageHTML (example_world [] (js "<html></html>") no_fail))
     = Ok (RStr (getMarkup_spec 10000 (js "... [truncated]") (js "<html></html>"))).
Proof.
  split; [reflexivity|].
  apply (get_page_html_truncates_at_fixed_limit home (example_world [] (js "<html></html>") no_fail)).
  reflexivity.
Defined.

(** ** C9: the screenshots directory *)

(** C9 (counterexample): building a tool suite, before any tool runs,
    creates [/home/user/screenshots]. *)
Lemma C9_created_at_construction :
  let w := @example_world example_runtime [] [] no_fail in
  w_dirs (snd (V1.create_browser_tools w)) = [home; js "/home/user/screenshots"]
  /\ w_log (snd (V1.create_browser_tools w)) = []
  /\ w_dirs (snd (V2.create_browser_tools w)) = [home; js "/home/user/screenshots"]
  /\ w_log (snd (V2.create_browser_tools w)) = [].
Proof. vm_compute; repeat split. Qed.

(** C9 (amended): when [cwd/screenshots] does not exist, constructing
    either suite creates it (eagerly, before any tool runs); and no tool
    other than the screenshot tools changes the directories. *)
Theorem screenshots_dir_created_on_construction {RT : JsRuntime} (w : world) :
  let dir := NodePath.join (w_cwd w) (js "screenshots") in
  existsb (jstr_eqb dir) (w_dirs w ++ w_files w) = false ->
  w_fail w (CMkdir dir) = None ->
  V1.create_browser_tools w = (Ok dir, add_dir dir w)
  /\ V2.create_browser_tools w = (Ok dir, add_dir dir w)
  /\ (forall d t w', w_dirs (snd (V1.execute d t w')) = w_dirs w'
                     \/ exists f, t = V1.Take_Screenshot f)
  /\ (forall d t w', w_dirs (snd (V2.execute d t w')) = w_dirs w'
                     \/ exists f, t = V2.takeScreenshot f).
Proof.
  intros dir Hex Hmk; split; [|split; [|split]].
  - apply create_screenshots_dir_absent; assumption.
  - apply create_screenshots_dir_absent; assumption.
  - intros d t w'; destruct (v1_keeps_dirs d t) as [H|H]; [left; apply H | right; exact H].
  - intros d t w'; destruct (v2_keeps_dirs d t) as [H|H]; [left; apply H | right; exact H].
Qed.

Lemma screenshots_dir_created_on_construction_witness :
  let w := @example_world example_runtime [] [] no_fail in
  existsb (jstr_eqb (NodePath.join (w_cwd w) (js "screenshots"))) (w_dirs w ++ w_files w) = false
  /\ w_fail w (CMkdir (NodePath.join (w_cwd w) (js "screenshots"))) = None
  /\ V1.create_browser_tools w = (Ok (NodePath.join (w_cwd w) (js "screenshots")),
                                  add_dir (NodePath.join (w_cwd w) (js "screenshots")) w).
Proof.
  intros w; split; [vm_compute; reflexivity|]; split; [reflexivity|].
  apply (screenshots_dir_created_on_construction w); vm_compute; reflexivity.
Defined.

(** ** C1: the resolution cascade of [Click_Element] *)

(** The cascade as the spec describes it (section 4.2): the strategies in
    order, the first one with a match wins and acts on its first match in
    document order; a locator the page cannot evaluate stops the cascade. *)
Inductive strategy := RoleButton | RoleLink | TextMatch | CssSelector.

Inductive resolution {RT : JsRuntime} :=
| Resolved (s : strategy) (e : element)
| NotFound
| QueryError (m : jstr).
Arguments resolution : clear implicits.

Fixpoint resolve_spec {RT : JsRuntime} (w : world) (l : list (strategy * query))
  : resolution RT :=
  match l with
  | [] => NotFound
  | (s, q) :: l' =>
      match query_all w q with
      | inl m => QueryError m
      | inr [] => resolve_spec w l'
      | inr (e :: _) => Resolved s e
      end
  end.

Definition click_strategies {RT : JsRuntime} (target : jstr) (r1 r3 : regexp)
  : list (strategy * query) :=
  [(RoleButton, QRole (js "button") r1); (RoleLink, QRole (js "link") r1);
   (TextMatch, QText r3); (CssSelector, QCss target)].

Definition strategy_msg (s : strategy) (target : jstr) : jstr :=
  match s with
  | RoleButton => js "Successfully clicked button with text: " ++ target
  | RoleLink => js "Successfully clicked link with text: " ++ target
  | TextMatch => js "Successfully clicked element with text: " ++ target
  | CssSelector => js "Successfully clicked CSS selector: " ++ target
  end.

Definition not_found_msg (target : jstr) : jstr :=
  js "Error: No element found for target " ++ dq ++ target ++ dq ++ js ".".

Section Cascade.

Context {RT : JsRuntime}.

Lemma try_locator_step (w : world) (q : query) msg (k : M toolret) :
  (forall c, w_fail w c = None) ->
  V1.try_locator q msg k w
  = match query_all w q with
    | inl m => (Exn m, w)
    | inr [] => k w
    | inr (e :: _) => (Ok (RStr msg), log (Clicked e) w)
    end.
Proof.
  intros Hf; unfold V1.try_locator, bind, pw_count, pw_click_first.
  rewrite Hf; destruct (query_all w q) as [m|[|e l]] eqn:E; try reflexivity.
  cbn [List.length Nat.ltb Nat.leb]; rewrite Hf, E; reflexivity.
Qed.

(** [Click_Element] is the cascade of the spec, when every regexp it
    builds is valid and no browser call fails. *)
Lemma click_element_resolves (dir : jstr) (w : world) (target : jstr) (r1 r3 : regexp) :
  (forall c, w_fail w c = None) ->
  regexp_new target (js "i") = inr r1 ->
  regexp_new (js "^" ++ target ++ js "$") (js "i") = inr r3 ->
  V1.execute dir (V1.Click_Element target) w
  = match resolve_spec w (click_strategies target r1 r3) with
    | Resolved s e => (Ok (RStr (strategy_msg s target)), log (Clicked e) w)
    | NotFound => (Ok (RStr (not_found_msg target)), w)
    | QueryError m => (Ok (RStr (js "Error: Failed to click " ++ dq ++ target ++ dq
                                 ++ js ". Details: " ++ m)), w)
    end.
Proof.
  intros Hf H1 H3; unfold V1.execute, V1.click_element, guarded, try_catch, regexp_new_m.
  rewrite H1, H3; unfold bind; cbv beta iota.
  rewrite try_locator_step by exact Hf; unfold resolve_spec, click_strategies.
  destruct (query_all w (QRole (js "button") r1)) as [m|[|e l]]; try reflexivity; try (unfold ret; repeat rewrite <- app_assoc; reflexivity).
  unfold bind; cbv beta iota; rewrite try_locator_step by exact Hf.
  destruct (query_all w (QRole (js "link") r1)) as [m|[|e l]]; try reflexivity; try (unfold ret; repeat rewrite <- app_assoc; reflexivity).
  unfold bind; cbv beta iota; rewrite try_locator_step by exact Hf.
  destruct (query_all w (QText r3)) as [m|[|e l]]; try reflexivity; try (unfold ret; repeat rewrite <- app_assoc; reflexivity).
  rewrite try_locator_step by exact Hf.
  destruct (query_all w (QCss target)) as [m|[|e l]]; try reflexivity;
    unfold ret; repeat rewrite <- app_assoc; reflexivity.
Qed.

Lemma filter_first {A} (f : A -> bool) (l : list A) (x : A) :
  In x l -> f x = true ->
  exists e0 rest pre post, filter f l = e0 :: rest /\ l = pre ++ e0 :: post
                          /\ f e0 = true /\ forallb (fun y => negb (f y)) pre = true.
Proof.
  induction l as [|a l IH]; [contradiction|]; intros Hin Hx; simpl.
  destruct (f a) eqn:Ha.
  - exists a, (filter f l), [], l; repeat split; [exact Ha].
  - destruct Hin as [<-|Hin]; [congruence|].
    destruct (IH Hin Hx) as (e0 & rest & pre & post & E & L & F & P).
    exists e0, rest, (a :: pre), post; repeat split;
      [exact E | simpl; rewrite <- L; reflexivity | exact F | simpl; rewrite Ha, P; reflexivity].
Qed.

End Cascade.

(** C1: with valid regexps and no failing browser call, [Click_Element]
    tries role button, role link, the anchored case-insensitive text
    match and the raw selector in this order, stops at the first with a
    match and clicks that strategy's first match in document order; in
    particular, whenever some button's accessible name matches the target
    pattern (case-insensitively), the button strategy is used, on the
    first such button, whatever else matches. *)
Theorem click_element_cascade_order {RT : JsRuntime}
  (dir : jstr) (w : world) (target : jstr) (r1 r3 : regexp) :
  (forall c, w_fail w c = None) ->
  regexp_new target (js "i") = inr r1 ->
  regexp_new (js "^" ++ target ++ js "$") (js "i") = inr r3 ->
  V1.execute dir (V1.Click_Element target) w
  = match resolve_spec w (click_strategies target r1 r3) with
    | Resolved s e => (Ok (RStr (strategy_msg s target)), log (Clicked e) w)
    | NotFound => (Ok (RStr (not_found_msg target)), w)
    | QueryError m => (Ok (RStr (js "Error: Failed to click " ++ dq ++ target ++ dq
                                 ++ js ". Details: " ++ m)), w)
    end
  /\ (forall e, In e (w_dom w) -> role_match (js "button") r1 e = true ->
      exists e0 pre post,
        w_dom w = pre ++ e0 :: post
        /\ role_match (js "button") r1 e0 = true
        /\ forallb (fun y => negb (role_match (js "button") r1 y)) pre = true
        /\ V1.execute dir (V1.Click_Element target) w
           = (Ok (RStr (js "Successfully clicked button with text: " ++ target)),
              log (Clicked e0) w)).
Proof.
  intros Hf H1 H3.
  pose proof (click_element_resolves dir w target r1 r3 Hf H1 H3) as R.
  split; [exact R|].
  intros e Hin He.
  destruct (filter_first _ _ _ Hin He) as (e0 & rest & pre & post & E & L & F & P).
  exists e0, pre, post; repeat split; try assumption.
  rewrite R; simpl; rewrite E; reflexivity.
Qed.

(** The spec's example: a link "Submit form" before a button "Submit";
    target "Submit" clicks the button. *)
Definition submit_button : element := leaf "button" "Submit" (Some "button"%string) 60 20.

Definition submit_page : list element :=
  [leaf "a" "Submit form" (Some "link"%string) 80 20; submit_button].

Definition compiled (src : jstr) : MiniRegExp.re * bool :=
  match MiniRegExp.regexp_new src (js "i") with
  | inr r => r
  | inl _ => (MiniRegExp.RNone, true)
  end.

Lemma click_element_cascade_order_witness :
  (forall c, w_fail (@example_world example_runtime submit_page [] no_fail) c = None)
  /\ @regexp_new example_runtime (js "Submit") (js "i") = inr (compiled (js "Submit"))
  /\ @regexp_new example_runtime (js "^Submit$") (js "i") = inr (compiled (js "^Submit$"))
  /\ V1.execute home (V1.Click_Element (js "Submit"))
       (@example_world example_runtime submit_page [] no_fail)
     = (Ok (RStr (js "Successfully clicked button with text: Submit")),
        log (Clicked submit_button) (@example_world example_runtime submit_page [] no_fail)).
Proof.
  split; [reflexivity|]; split; [vm_compute; reflexivity|]; split; [vm_compute; reflexivity|].
  destruct (@click_element_cascade_order example_runtime home
              (@example_world example_runtime submit_page [] no_fail) (js "Submit")
              (compiled (js "Submit")) (compiled (js "^Submit$"))
              (fun _ => eq_refl) ltac:(vm_compute; reflexivity) ltac:(vm_compute; reflexivity))
    as [R _].
  rewrite R; vm_compute; reflexivity.
Defined.

(** ** C10: the click target is a regular expression *)

Definition paren_button : element := leaf "button" "(" (Some "button"%string) 20 20.
Definition ok_button : element := leaf "button" "OK" (Some "button"%string) 40 20.

(** C10: [Click_Element] compiles its target with [new RegExp(target, "i")].
    In any runtime where the pattern "(" is rejected with a message [m] and
    the pattern ".*" accepts every string (as JavaScript's RegExp does),
    clicking "(" on a page whose only element is a visible button labelled
    "(" fails with [m] and clicks nothing, while clicking ".*" on a page
    whose only element is a button labelled "OK" (a text that does not
    contain ".*") clicks that button and reports success. *)
Theorem click_target_is_a_pattern {RT : JsRuntime} (m : jstr) (r : regexp) :
  regexp_new (js "(") (js "i") = inl m ->
  regexp_new (js ".*") (js "i") = inr r ->
  (forall s, regexp_test r s = true) ->
  V1.execute home (V1.Click_Element (js "("))
    (example_world [paren_button] [] no_fail)
  = (Ok (RStr (js "Error: Failed to click " ++ dq ++ js "(" ++ dq ++ js ". Details: " ++ m)),
     example_world [paren_button] [] no_fail)
  /\ includes (el_text ok_button) (js ".*") = false
  /\ V1.execute home (V1.Click_Element (js ".*"))
       (example_world [ok_button] [] no_fail)
     = (Ok (RStr (js "Successfully clicked button with text: .*")),
        log (Clicked ok_button) (example_world [ok_button] [] no_fail)).
Proof.
  intros Hp Hs Ht; split; [|split; [reflexivity|]].
  - unfold V1.execute, V1.click_element, guarded, try_catch, bind, regexp_new_m.
    rewrite Hp; reflexivity.
  - unfold V1.execute, V1.click_element, guarded, try_catch, regexp_new_m.
    rewrite Hs; unfold bind; cbv beta iota.
    rewrite try_locator_step by reflexivity.
    unfold query_all, example_world, w_dom, filter, role_match, ok_button, leaf.
    rewrite Ht; reflexivity.
Qed.

Lemma click_target_is_a_pattern_witness :
  @regexp_new example_runtime (js "(") (js "i")
    = inl (js "Invalid regular expression: /(/i: Unterminated group")
  /\ @regexp_new example_runtime (js ".*") (js "i") = inr (compiled (js ".*"))
  /\ V1.execute home (V1.Click_Element (js "("))
       (@example_world example_runtime [paren_button] [] no_fail)
     = (Ok (RStr (js "Error: Failed to click " ++ dq ++ js "(" ++ dq ++ js ". Details: "
                  ++ js "Invalid regular expression: /(/i: Unterminated group")),
        @example_world example_runtime [paren_button] [] no_fail).
Proof.
  split; [vm_compute; reflexivity|]; split; [vm_compute; reflexivity|].
  refine (proj1 (@click_target_is_a_pattern example_runtime _ (compiled (js ".*"))
                   ltac:(vm_compute; reflexivity) ltac:(vm_compute; reflexivity) _)).
  intros [|c s]; reflexivity.
Defined.

(** ** C2: every tool answers with a string *)

(** *** The [@openai/agents] boundary

    Every tool is built with [tool()] of [@openai/agents] (line 1) and no
    [errorFunction].  The SDK's [invoke] parses the arguments against the
    tool's schema, runs [execute] and catches whatever is thrown on the
    way (a rejected input or an error of [execute]), answering instead
    with the string of [defaultToolErrorFunction]; the runner hands the
    result to the model through [toSmartString]: a string unchanged, an
    object through [JSON.stringify].  [error_to_string m] is
    [error.toString()] of the error [execute] throws with message [m]. *)

Section Planner.

Context {RT : JsRuntime}.

Variable error_to_string : jstr -> jstr.

(** [defaultToolErrorFunction], given [error.toString()]. *)
Definition default_tool_error (details : jstr) : jstr :=
  js "An error occurred while running the tool. Please try again. Error: " ++ details.

(** [JSON.stringify] of one [{ text, selector }] entry. *)
Definition json_dom_summary (d : dom_summary) : jstr :=
  js "{" ++ json_string (js "text") ++ js ":" ++ json_string (ds_text d) ++ js ","
  ++ json_string (js "selector") ++ js ":" ++ json_string (ds_selector d) ++ js "}".

(** [toSmartString] of what [execute] resolved to. *)
Definition to_smart_string (r : toolret) : jstr :=
  match r with
  | RStr s => s
  | RElems l => js "[" ++ NodePath.join_with (js ",") (map json_dom_summary l) ++ js "]"
  end.

(** What the model receives from one run of [execute]. *)
Definition tool_output (exec : M toolret) : M jstr :=
  fun w => match exec w with
           | (Ok r, w') => (Ok (to_smart_string r), w')
           | (Exn m, w') => (Ok (default_tool_error (error_to_string m)), w')
           end.

(** A tool call of the model: arguments the schema rejects ([inl], with
    the [toString()] of the error the SDK throws for them) or the parsed
    arguments ([inr]). *)
Definition v1_invoke (dir : jstr) (input : jstr + V1.tool) : M jstr :=
  match input with
  | inl details => fun w => (Ok (default_tool_error details), w)
  | inr t => tool_output (V1.execute dir t)
  end.

Definition v2_invoke (dir : jstr) (input : jstr + V2.tool) : M jstr :=
  match input with
  | inl details => fun w => (Ok (default_tool_error details), w)
  | inr t => tool_output (V2.execute dir t)
  end.

Lemma tool_output_str (exec : M toolret) (w : world) (s : jstr) :
  fst (exec w) = Ok (RStr s) ->
  exists w', exec w = (Ok (RStr s), w') /\ tool_output exec w = (Ok s, w').
Proof.
  unfold tool_output; destruct (exec w) as [r w']; simpl; intros ->.
  exists w'; split; reflexivity.
Qed.

Lemma tool_output_ok (exec : M toolret) (w : world) : exists s w', tool_output exec w = (Ok s, w').
Proof. unfold tool_output; destruct (exec w) as [[r|m] w']; eauto. Qed.

End Planner.

Lemma v1_guarded_str {RT : JsRuntime} (dir : jstr) (t : V1.tool) (w : world) :
  (forall url, t <> V1.Open_web_page url) -> t <> V1.GET_DOM_ELEMENTS ->
  exists s, fst (V1.execute dir t w) = Ok (RStr s).
Proof.
  intros Hu Hd.
  destruct t; [exfalso; exact (Hu _ eq_refl) | exfalso; exact (Hd eq_refl)
              | .. | exists (js "Task successfully marked as complete."); reflexivity | ];
    unfold V1.execute, V1.click_element, V1.fill_input, V1.take_screenshot, V1.get_page_html;
    apply guarded_str; cbv zeta; frame.
Qed.

Lemma v2_guarded_str {RT : JsRuntime} (dir : jstr) (t : V2.tool) (w : world) :
  exists s, fst (V2.execute dir t w) = Ok (RStr s).
Proof.
  destruct t; unfold V2.execute, V2.go_to_page, V2.take_screenshot,
    V2.get_page_elements, V2.fill_field, V2.scroll_page, V2.type_text,
    V2.click_at_coordinates, V2.drag_and_drop, V2.get_page_html, V2.find_elements_by_text;
    apply guarded_str; cbv zeta; frame.
Qed.

(** C2: whatever the model asks, every tool of both suites answers it with
    a string: the SDK turns what [execute] throws, and arguments its schema
    rejects, into the string of [defaultToolErrorFunction].  Below that
    boundary, every tool of the second suite and every tool of the first
    suite but [Open_web_page] and [GET_DOM_ELEMENTS] (which have no [try])
    resolves to a string itself, which reaches the model unchanged.  When
    the regexps of [Click_Element] compile, no browser call fails and no
    strategy finds an element, [Click_Element] returns
    ["Error: No element found for target "T"."] and leaves the page as it
    was. *)
Theorem tools_return_strings {RT : JsRuntime} (error_to_string : jstr -> jstr)
    (dir : jstr) (w : world) :
  (forall input : jstr + V1.tool, exists s w', v1_invoke error_to_string dir input w = (Ok s, w'))
  /\ (forall input : jstr + V2.tool, exists s w', v2_invoke error_to_string dir input w = (Ok s, w'))
  /\ (forall t : V1.tool, (forall url, t <> V1.Open_web_page url) -> t <> V1.GET_DOM_ELEMENTS ->
        exists s w', V1.execute dir t w = (Ok (RStr s), w')
                     /\ v1_invoke error_to_string dir (inr t) w = (Ok s, w'))
  /\ (forall t : V2.tool,
        exists s w', V2.execute dir t w = (Ok (RStr s), w')
                     /\ v2_invoke error_to_string dir (inr t) w = (Ok s, w'))
  /\ (forall target r1 r3,
        (forall c, w_fail w c = None) ->
        regexp_new target (js "i") = inr r1 ->
        regexp_new (js "^" ++ target ++ js "$") (js "i") = inr r3 ->
        resolve_spec w (click_strategies target r1 r3) = NotFound ->
        V1.execute dir (V1.Click_Element target) w = (Ok (RStr (not_found_msg target)), w)
        /\ v1_invoke error_to_string dir (inr (V1.Click_Element target)) w
           = (Ok (not_found_msg target), w)).
Proof.
  split; [|split; [|split; [|split]]].
  - intros [d|t]; [do 2 eexists; reflexivity | apply tool_output_ok].
  - intros [d|t]; [do 2 eexists; reflexivity | apply tool_output_ok].
  - intros t Hu Hd; destruct (v1_guarded_str dir t w Hu Hd) as [s H].
    exists s; apply (tool_output_str error_to_string _ _ _ H).
  - intros t; destruct (v2_guarded_str dir t w) as [s H].
    exists s; apply (tool_output_str error_to_string _ _ _ H).
  - intros target r1 r3 Hf H1 H3 Hn.
    assert (E : V1.execute dir (V1.Click_Element target) w = (Ok (RStr (not_found_msg target)), w))
      by (rewrite (click_element_resolves dir w target r1 r3 Hf H1 H3), Hn; reflexivity).
    split; [exact E|]; unfold v1_invoke, tool_output; rewrite E; reflexivity.
Qed.

Lemma tools_return_strings_witness :
  let w := @example_world example_runtime submit_page [] no_fail in
  V1.execute home (V1.Click_Element (js "Cancel")) w
  = (Ok (RStr (js "Error: No element found for target " ++ dq ++ js "Cancel" ++ dq ++ js ".")), w)
  /\ v1_invoke (fun m => js "Error: " ++ m) home (inr (V1.Click_Element (js "Cancel"))) w
     = (Ok (js "Error: No element found for target " ++ dq ++ js "Cancel" ++ dq ++ js "."), w).
Proof.
  intros w.
  exact (proj2 (proj2 (proj2 (proj2 (@tools_return_strings example_runtime
                                       (fun m => js "Error: " ++ m) home w))))
           (js "Cancel") (compiled (js "Cancel")) (compiled (js "^Cancel$")) (fun _ => eq_refl)
           ltac:(vm_compute; reflexivity) ltac:(vm_compute; reflexivity)
           ltac:(vm_compute; reflexivity)).
Defined.

(** ** C3: how failures are reported *)

Definition unreachable_goto {RT : JsRuntime} : call -> option jstr :=
  fun c => match c with
           | CGoto _ _ _ => Some (js "page.goto: net::ERR_NAME_NOT_RESOLVED")
           | CEvaluate _ => Some (js "page.evaluate: Execution context was destroyed")
           | _ => None
           end.

(** What a guarded tool says it failed to do. *)
Definition v1_what (t : V1.tool) : option jstr :=
  match t with
  | V1.Click_Element target => Some (js "click " ++ dq ++ target ++ dq)
  | V1.Fill_Input selector _ => Some (js "fill input " ++ dq ++ selector ++ dq)
  | V1.Take_Screenshot _ => Some (js "take screenshot")
  | V1.Get_Page_HTML => Some (js "get page HTML")
  | V1.Open_web_page _ | V1.GET_DOM_ELEMENTS | V1.Task_Complete _ => None
  end.

(** The [try] block of each guarded tool of the first suite, as written in
    [V1]. *)
Definition v1_try {RT : JsRuntime} (dir : jstr) (t : V1.tool) : option (M toolret) :=
  match t with
  | V1.Click_Element target =>
      Some (re1 <- regexp_new_m target (js "i");;
            V1.try_locator (QRole (js "button") re1)
              (js "Successfully clicked button with text: " ++ target)
            (re2 <- regexp_new_m target (js "i");;
             V1.try_locator (QRole (js "link") re2)
               (js "Successfully clicked link with text: " ++ target)
             (re3 <- regexp_new_m (js "^" ++ target ++ js "$") (js "i");;
              V1.try_locator (QText re3)
                (js "Successfully clicked element with text: " ++ target)
              (V1.try_locator (QCss target)
                 (js "Successfully clicked CSS selector: " ++ target)
               (ret (RStr (js "Error: No element found for target " ++ dq ++ target ++ dq
                           ++ js ".")))))))
  | V1.Fill_Input selector value =>
      Some (pw_call (CPressSequentially selector value 50);;;
            ret (RStr (js "Successfully typed '" ++ value ++ js "' into '" ++ selector ++ js "'.")))
  | V1.Take_Screenshot filename =>
      Some (final_filename <- (match filename with
                               | Some f => if truthy f then ret f
                                           else (ts <- timestamp;; ret (js "screenshot-" ++ ts ++ js ".png"))
                               | None => ts <- timestamp;; ret (js "screenshot-" ++ ts ++ js ".png")
                               end);;
            let file_path := NodePath.join dir final_filename in
            pw_screenshot file_path;;;
            ret (RStr (js "Successfully saved screenshot to " ++ file_path)))
  | V1.Get_Page_HTML =>
      Some (html <- pw_content;;
            ret (RStr (truncate 20000 (js "... [HTML Truncated]") html)))
  | V1.Open_web_page _ | V1.GET_DOM_ELEMENTS | V1.Task_Complete _ => None
  end.

Definition v2_what {RT : JsRuntime} (t : V2.tool) : jstr :=
  match t with
  | V2.goToPage _ => js "navigate or find the essential page elements"
  | V2.takeScreenshot _ => js "take screenshot"
  | V2.getPageElements => js "get page elements"
  | V2.fillField _ _ => js "fill field"
  | V2.scrollPage _ => js "scroll"
  | V2.typeText _ => js "type text"
  | V2.clickAtCoordinates _ _ => js "click at coordinates"
  | V2.dragAndDropElement _ _ => js "drag and drop"
  | V2.getPageHTML => js "get page HTML"
  | V2.findElementsByText _ => js "search elements"
  end.

(** The [try] block of each tool of the second suite, as written in [V2]. *)
Definition v2_try {RT : JsRuntime} (dir : jstr) (t : V2.tool) : M toolret :=
  match t with
  | V2.goToPage url =>
      pw_call (CGoto url None None);;;
      ret (RStr (js "Successfully navigated to " ++ url ++ js " and the page is ready."))
  | V2.takeScreenshot filename =>
      base_filename <- V2.screenshot_basename filename;;
      let file_path := NodePath.join dir base_filename in
      pw_screenshot file_path;;;
      ret (RStr (js "Screenshot saved successfully at " ++ file_path))
  | V2.getPageElements =>
      elements <- pw_evaluate SPageElements V2.page_elements_script;;
      ret (RStr (js "Found " ++ nat_to_dec (List.length elements) ++ js " interactive elements."))
  | V2.fillField selector text =>
      pw_call (CFill selector text);;;
      ret (RStr (js "Successfully filled " ++ dq ++ selector ++ dq ++ js "."))
  | V2.scrollPage amount =>
      pw_call (CWheel 0 amount);;;
      ret (RStr (js "Successfully scrolled by " ++ num_to_string amount ++ js " pixels."))
  | V2.typeText text =>
      pw_call (CKeyboardType text);;;
      ret (RStr (js "Successfully typed " ++ dq ++ text ++ dq ++ js "."))
  | V2.clickAtCoordinates x y =>
      pw_call (CMouseClick x y);;;
      ret (RStr (js "Successfully clicked at (" ++ num_to_string x ++ js ", "
                 ++ num_to_string y ++ js ")."))
  | V2.dragAndDropElement src dst =>
      pw_call (CDragAndDrop src dst);;;
      ret (RStr (js "Successfully dragged " ++ dq ++ src ++ dq ++ js " to " ++ dq ++ dst ++ dq
                 ++ js "."))
  | V2.getPageHTML =>
      html <- pw_content;;
      ret (RStr (truncate 10000 (js "... [truncated]") html))
  | V2.findElementsByText text =>
      elements <- pw_evaluate (SFindText text) (V2.find_text_script text);;
      match elements with
      | [] => ret (RStr (js "No elements found with text " ++ dq ++ text ++ dq ++ js "."))
      | _ => ret (RStr (js "Found " ++ nat_to_dec (List.length elements)
                        ++ js " elements with text " ++ dq ++ text ++ dq ++ js "." ++ nl
                        ++ js "Details (first 5):" ++ nl
                        ++ json_stringify_matches (firstn 5 elements)))
      end
  end.

Lemma starts_with_app (p s : jstr) : starts_with p (p ++ s) = true.
Proof. induction p as [|x p IH]; simpl; [reflexivity|]; rewrite N.eqb_refl, IH; reflexivity. Qed.

Lemma includes_app (a p s : jstr) : includes (a ++ p ++ s) p = true.
Proof.
  induction a as [|x a IH]; simpl.
  - destruct p; simpl; [destruct s; reflexivity|]; rewrite N.eqb_refl, starts_with_app; reflexivity.
  - rewrite IH, orb_true_r; reflexivity.
Qed.

(** C3 (counterexample): the second suite reports failures without the
    ["Error:"] prefix and, for [goToPage], without the URL. *)
Lemma C3_no_error_prefix :
  let w := @example_world example_runtime [] [] unreachable_goto in
  let url := js "https://unreachable.invalid" in
  fst (V2.execute home (V2.goToPage url) w)
  = Ok (RStr (js "Failed to navigate or find the essential page elements. Details: "
              ++ js "page.goto: net::ERR_NAME_NOT_RESOLVED"))
  /\ starts_with (js "Error:") (js "Failed to navigate or find the essential page elements. Details: "
                                ++ js "page.goto: net::ERR_NAME_NOT_RESOLVED") = false
  /\ includes (js "Failed to navigate or find the essential page elements. Details: "
               ++ js "page.goto: net::ERR_NAME_NOT_RESOLVED") url = false.
Proof. vm_compute; repeat split. Qed.

(** C3 (amended): each guarded tool is its [try] block under a [catch]
    that reports the error: whenever the [try] block throws an error with
    message [m], at whichever of its calls, a tool of the first suite
    answers ["Error: Failed to <what>. Details: <m>"], where <what> names
    the quoted target for [Click_Element] and the quoted selector for
    [Fill_Input], and no target for [Take_Screenshot] and [Get_Page_HTML];
    a tool of the second suite answers ["Failed to <what>. Details: <m>"],
    with no ["Error:"] prefix and no target.  Either answer reaches the
    model unchanged.  An error thrown by [Open_web_page] or
    [GET_DOM_ELEMENTS], which have no [try], reaches the model as the
    SDK's ["An error occurred while running the tool. Please try again.
    Error: <error.toString()>"].  A click whose target matches nothing
    returns ["Error: No element found for target "T"."], which starts with
    ["Error:"] and contains the target. *)
Theorem failures_are_reported {RT : JsRuntime} (error_to_string : jstr -> jstr) (dir : jstr) :
  (forall t what body, v1_what t = Some what -> v1_try dir t = Some body ->
     V1.execute dir t = guarded (js "Error: ") what body
     /\ forall w m w', body w = (Exn m, w') ->
          V1.execute dir t w
          = (Ok (RStr (js "Error: Failed to " ++ what ++ js ". Details: " ++ m)), w')
          /\ v1_invoke error_to_string dir (inr t) w
             = (Ok (js "Error: Failed to " ++ what ++ js ". Details: " ++ m), w'))
  /\ (forall t, V2.execute dir t = guarded [] (v2_what t) (v2_try dir t)
       /\ forall w m w', v2_try dir t w = (Exn m, w') ->
            V2.execute dir t w
            = (Ok (RStr (js "Failed to " ++ v2_what t ++ js ". Details: " ++ m)), w')
            /\ v2_invoke error_to_string dir (inr t) w
               = (Ok (js "Failed to " ++ v2_what t ++ js ". Details: " ++ m), w'))
  /\ (forall t w m w', V1.execute dir t w = (Exn m, w') ->
        (exists url, t = V1.Open_web_page url) \/ t = V1.GET_DOM_ELEMENTS)
  /\ (forall t w m w', V1.execute dir t w = (Exn m, w') ->
        v1_invoke error_to_string dir (inr t) w = (Ok (default_tool_error (error_to_string m)), w'))
  /\ (forall w target r1 r3,
        (forall c, w_fail w c = None) ->
        regexp_new target (js "i") = inr r1 ->
        regexp_new (js "^" ++ target ++ js "$") (js "i") = inr r3 ->
        resolve_spec w (click_strategies target r1 r3) = NotFound ->
        V1.execute dir (V1.Click_Element target) w = (Ok (RStr (not_found_msg target)), w)
        /\ starts_with (js "Error:") (not_found_msg target) = true
        /\ includes (not_found_msg target) target = true).
Proof.
  split; [|split; [|split; [|split]]].
  - intros t what body Hw Hb.
    assert (E : V1.execute dir t = guarded (js "Error: ") what body)
      by (destruct t; simpl in Hw, Hb; try discriminate;
          injection Hw as <-; injection Hb as <-; reflexivity).
    split; [exact E|]; intros w m w' Hm.
    assert (E' : V1.execute dir t w
                 = (Ok (RStr (js "Error: Failed to " ++ what ++ js ". Details: " ++ m)), w'))
      by (rewrite E, (guarded_exn _ _ _ _ m w' Hm); reflexivity).
    split; [exact E'|]; unfold v1_invoke, tool_output; rewrite E'; reflexivity.
  - intros t.
    assert (E : V2.execute dir t = guarded [] (v2_what t) (v2_try dir t)) by (destruct t; reflexivity).
    split; [exact E|]; intros w m w' Hm.
    assert (E' : V2.execute dir t w
                 = (Ok (RStr (js "Failed to " ++ v2_what t ++ js ". Details: " ++ m)), w'))
      by (rewrite E, (guarded_exn _ _ _ _ m w' Hm); reflexivity).
    split; [exact E'|]; unfold v2_invoke, tool_output; rewrite E'; reflexivity.
  - intros t w m w' H.
    destruct t as [url| | | | | |]; [left; exists url; reflexivity | right; reflexivity | ..];
      exfalso; match type of H with
               | V1.execute _ ?t _ = _ =>
                   destruct (v1_guarded_str dir t w ltac:(intros ? ?; discriminate)
                               ltac:(discriminate)) as [s Hs]
               end; rewrite H in Hs; discriminate Hs.
  - intros t w m w' H; unfold v1_invoke, tool_output; rewrite H; reflexivity.
  - intros w target r1 r3 Hf H1 H3 Hn; split; [|split].
    + rewrite (click_element_resolves dir w target r1 r3 Hf H1 H3), Hn; reflexivity.
    + reflexivity.
    + unfold not_found_msg; rewrite app_assoc; apply includes_app.
Qed.

(** A browser in which only the click times out. *)
Definition click_times_out {RT : JsRuntime} : call -> option jstr :=
  fun c => match c with
           | CClickFirst _ => Some (js "locator.click: Timeout 30000ms exceeded.")
           | _ => None
           end.

Lemma failures_are_reported_witness :
  let w := @example_world example_runtime submit_page [] click_times_out in
  V1.execute home (V1.Click_Element (js "Submit")) w
  = (Ok (RStr (js "Error: Failed to click " ++ dq ++ js "Submit" ++ dq ++ js ". Details: "
               ++ js "locator.click: Timeout 30000ms exceeded.")), w).
Proof.
  intros w.
  exact (proj1 (proj2 (proj1 (@failures_are_reported example_runtime (fun m => m) home)
                         (V1.Click_Element (js "Submit")) _ _ eq_refl eq_refl)
                  w (js "locator.click: Timeout 30000ms exceeded.") w
                  ltac:(vm_compute; reflexivity))).
Defined.

(** ** C5: the extension of the screenshot file *)

Definition shots : jstr := js "/home/user/screenshots".

Definition v2_saved (p : jstr) : jstr := js "Screenshot saved successfully at " ++ p.

Lemma in_indexed (k i : Z) (c : N) (p : jstr) : In (i, c) (NodePath.indexed k p) -> In c p.
Proof.
  revert k; induction p as [|d p IH]; simpl; intros k H; [contradiction|].
  destruct H as [H|H]; [injection H as _ <-; left; reflexivity | right; exact (IH _ H)].
Qed.

Lemma ext_step_startDot (st : NodePath.ext_state) (i : Z) (c : N) :
  c <> NodePath.dot -> NodePath.startDot (NodePath.ext_step st (i, c)) = NodePath.startDot st.
Proof.
  intros Hc; unfold NodePath.ext_step.
  destruct (NodePath.stopped st); [reflexivity|].
  destruct (N.eqb c NodePath.slash); [destruct (NodePath.matchedSlash st); reflexivity|].
  rewrite (proj2 (N.eqb_neq _ _) Hc).
  destruct (Z.eqb (NodePath.endp st) (-1)); simpl;
    destruct (Z.eqb (NodePath.startDot st) (-1)); reflexivity.
Qed.

Lemma ext_fold_startDot (l : list (Z * N)) (st : NodePath.ext_state) :
  (forall i c, In (i, c) l -> c <> NodePath.dot) ->
  NodePath.startDot (fold_left NodePath.ext_step l st) = NodePath.startDot st.
Proof.
  revert st; induction l as [|[i c] l IH]; simpl; intros st H; [reflexivity|].
  rewrite IH by (intros; eapply H; right; eassumption).
  apply ext_step_startDot; eapply H; left; reflexivity.
Qed.

(** A name without a dot has no extension. *)
Lemma extname_no_dot (p : jstr) : ~ In NodePath.dot p -> NodePath.extname p = [].
Proof.
  intros Hp; unfold NodePath.extname.
  rewrite ext_fold_startDot; [reflexivity|].
  intros i c Hin Hc; apply Hp; rewrite <- Hc; apply in_rev in Hin; exact (in_indexed _ _ _ _ Hin).
Qed.

Lemma replace_colon_dot_no_dot (s : jstr) : ~ In NodePath.dot (replace_colon_dot s).
Proof.
  unfold replace_colon_dot; intros H; apply in_map_iff in H as (c & Hc & _).
  destruct (N.eqb c (ch ":") || N.eqb c (ch ".")) eqn:E.
  - discriminate.
  - subst c; discriminate.
Qed.

Lemma jstr_eqb_nil (s : jstr) : jstr_eqb s [] = true <-> s = [].
Proof. destruct s; simpl; split; congruence. Qed.

Lemma no_dot_app (a b : jstr) : ~ In NodePath.dot a -> ~ In NodePath.dot b -> ~ In NodePath.dot (a ++ b).
Proof. intros Ha Hb H; apply in_app_or in H as [H|H]; auto. Qed.

Lemma after_last_dot_png (x : jstr) : after_last_dot (x ++ js ".png") = Some (js "png").
Proof. induction x as [|c x IH]; simpl; [reflexivity|]; rewrite IH; reflexivity. Qed.

(** Playwright takes any path ending in ".png" for a PNG screenshot. *)
Lemma screenshot_type_png {RT : JsRuntime} (x : jstr) :
  screenshot_type (x ++ js ".png") = inr (js "png").
Proof.
  unfold screenshot_type, mime_type_for_path; rewrite after_last_dot_png, mime_types_png.
  reflexivity.
Qed.

(** ** C6: names of screenshots taken in the same second *)

(** The name [Take_Screenshot] and [takeScreenshot] give a screenshot
    taken without a hint, at clock reading [t]. *)
Definition fallback_name (t : Z) : jstr :=
  js "screenshot-" ++ replace_colon_dot (to_iso_string t) ++ js ".png".

(** C6 (counterexample): two screenshots without a hint taken at the same
    millisecond get the same path, so the second overwrites the first. *)
Lemma C6_same_millisecond_same_path :
  let w0 := @example_world example_runtime [] [] no_fail in
  let (r1, w1) := V2.execute shots (V2.takeScreenshot None) w0 in
  let (r2, w2) := V2.execute shots (V2.takeScreenshot None) w1 in
  r1 = Ok (RStr (v2_saved (js "/home/user/screenshots/screenshot-2026-10-15T19-37-00-123Z.png")))
  /\ r2 = r1
  /\ w_files w2 = [js "/home/user/screenshots/screenshot-2026-10-15T19-37-00-123Z.png";
                   js "/home/user/screenshots/screenshot-2026-10-15T19-37-00-123Z.png"].
Proof. vm_compute; repeat split. Qed.

Lemma jstr_eqb_true (a b : jstr) : jstr_eqb a b = true -> a = b.
Proof.
  revert b; induction a as [|x a IH]; intros [|y b]; simpl; try discriminate; [reflexivity|].
  intros H; apply andb_true_iff in H as [H1 H2]; apply N.eqb_eq in H1; subst; f_equal; auto.
Qed.

Section JoinSimple.

Import NodePath.

Lemma split_nonempty (a : jstr) : split a <> [].
Proof.
  destruct a as [|c a]; simpl; [discriminate|].
  destruct (N.eqb c slash); [discriminate|]; destruct (split a); discriminate.
Qed.

Lemma split_app_slash (a b : jstr) : split (a ++ slash :: b) = split a ++ split b.
Proof.
  induction a as [|c a IH]; [reflexivity|]; simpl; rewrite IH.
  destruct (N.eqb c slash); [reflexivity|].
  destruct (split a) as [|x r] eqn:E; [contradiction (split_nonempty a E)|reflexivity].
Qed.

Lemma split_no_slash (b : jstr) : ~ In slash b -> split b = [b].
Proof.
  induction b as [|c b IH]; intros H; [reflexivity|]; simpl.
  rewrite IH by (intros H'; apply H; right; exact H').
  destruct (N.eqb_spec c slash) as [->|_]; [contradiction H; left; reflexivity|reflexivity].
Qed.

Lemma join_with_snoc (sep : jstr) (l : list jstr) (x : jstr) :
  join_with sep (l ++ [x]) = match l with [] => x | _ => join_with sep l ++ sep ++ x end.
Proof.
  induction l as [|y l IH]; [reflexivity|]; simpl.
  destruct l as [|z l]; [reflexivity|]; rewrite IH; simpl; rewrite <- !app_assoc; reflexivity.
Qed.

Lemma last_app_ne (a b : jstr) (d : N) : b <> [] -> last (a ++ b) d = last b d.
Proof.
  intros Hb; induction a as [|c a IH]; [reflexivity|]; simpl; rewrite IH.
  destruct (a ++ b) eqn:E; [|reflexivity].
  apply app_eq_nil in E as [_ E]; contradiction.
Qed.

Lemma last_no_slash (b : jstr) (d : N) : b <> [] -> ~ In slash b -> last b d <> slash.
Proof.
  induction b as [|c b IH]; intros Hb Hs; [contradiction|].
  destruct b as [|c' b]; simpl.
  - intros ->; apply Hs; left; reflexivity.
  - apply IH; [discriminate|intros H; apply Hs; right; exact H].
Qed.

(** A path segment [b] on which [normalize] does nothing. *)
Definition simple_segment (b : jstr) : Prop :=
  b <> [] /\ ~ In slash b /\ b <> [dot] /\ b <> [dot; dot].

Lemma norm_step_simple (allow : bool) (stk : list jstr) (b : jstr) :
  simple_segment b -> norm_step allow stk b = b :: stk.
Proof.
  intros (H1 & _ & H2 & H3); unfold norm_step.
  destruct (jstr_eqb b []) eqn:E1; [apply jstr_eqb_true in E1; contradiction|].
  destruct (jstr_eqb b [dot]) eqn:E2; [apply jstr_eqb_true in E2; contradiction|].
  destruct (jstr_eqb b [dot; dot]) eqn:E3; [apply jstr_eqb_true in E3; contradiction|].
  reflexivity.
Qed.

(** [path.join(dir, b)] of a simple segment is a fixed prefix, given by
    [dir], followed by [b]. *)
Lemma join_simple (dir : jstr) :
  exists P, forall b, simple_segment b -> join dir b = P ++ b.
Proof.
  destruct dir as [|c0 dir'].
  - exists []; intros b Hsb; pose proof Hsb as (Hb & Hs & _).
    destruct b as [|c b']; [contradiction|].
    unfold join, normalize; cbv zeta.
    rewrite (proj2 (N.eqb_neq _ _) (last_no_slash (c :: b') 0%N Hb Hs)).
    assert (Hc : N.eqb c slash = false)
      by (apply N.eqb_neq; intros ->; apply Hs; left; reflexivity).
    rewrite Hc; unfold normalize_string; rewrite (split_no_slash _ Hs); cbn [fold_left].
    rewrite norm_step_simple by exact Hsb; reflexivity.
  - set (S0 := fold_left (norm_step (negb (N.eqb c0 slash))) (split (c0 :: dir')) []).
    set (Q := match rev S0 with [] => [] | _ => join_with [slash] (rev S0) ++ [slash] end).
    exists (if N.eqb c0 slash then slash :: Q else Q).
    intros b Hsb; pose proof Hsb as (Hb & Hs & _).
    destruct b as [|c b']; [contradiction|].
    unfold join; cbv iota.
    change ((c0 :: dir') ++ [slash] ++ c :: b') with (c0 :: (dir' ++ slash :: c :: b')).
    unfold normalize; cbv zeta.
    assert (HL : last (c0 :: dir' ++ slash :: c :: b') 0%N = last (c :: b') 0%N).
    { replace (c0 :: dir' ++ slash :: c :: b') with ((c0 :: dir' ++ [slash]) ++ c :: b')
        by (simpl; rewrite <- app_assoc; reflexivity).
      apply last_app_ne; exact Hb. }
    rewrite HL.
    rewrite (proj2 (N.eqb_neq _ _) (last_no_slash (c :: b') 0%N Hb Hs)).
    assert (HN : normalize_string (c0 :: dir' ++ slash :: c :: b') (negb (N.eqb c0 slash))
                 = Q ++ c :: b').
    { unfold normalize_string.
      change (c0 :: dir' ++ slash :: c :: b') with ((c0 :: dir') ++ slash :: c :: b').
      rewrite split_app_slash, (split_no_slash _ Hs), fold_left_app; cbn [fold_left].
      rewrite norm_step_simple by exact Hsb; fold S0; cbn [rev].
      rewrite join_with_snoc; unfold Q; destruct (rev S0);
        [reflexivity | rewrite <- app_assoc; reflexivity]. }
    rewrite HN; clearbody Q; destruct Q; destruct (N.eqb c0 slash); reflexivity.
Qed.
End JoinSimple.

Lemma no_slash_app (a b : jstr) :
  ~ In NodePath.slash a -> ~ In NodePath.slash b -> ~ In NodePath.slash (a ++ b).
Proof. intros Ha Hb H; apply in_app_or in H as [H|H]; auto. Qed.

Lemma digits_rev_no_slash (fuel : nat) (n : N) : ~ In NodePath.slash (digits_rev fuel n).
Proof.
  revert n; induction fuel as [|f IH]; intros n; cbn [digits_rev In]; [tauto|].
  intros [H|H].
  - pose proof (N.le_add_r 48 (n mod 10)) as Hle; rewrite H in Hle.
    apply N.leb_le in Hle; discriminate Hle.
  - destruct (n <? 10)%N; [exact H | exact (IH _ H)].
Qed.

Lemma pad_no_slash (k : nat) (n : Z) : ~ In NodePath.slash (pad k n).
Proof.
  unfold pad, N_to_dec; apply no_slash_app.
  - intros H; apply repeat_spec in H; discriminate.
  - rewrite <- in_rev; apply digits_rev_no_slash.
Qed.

Lemma notin_existsb (c : N) (l : jstr) : existsb (N.eqb c) l = false -> ~ In c l.
Proof.
  intros H Hin; assert (existsb (N.eqb c) l = true) by (apply existsb_exists; exists c;
    split; [exact Hin | apply N.eqb_refl]); congruence.
Qed.

Ltac no_slash :=
  repeat first
    [ apply pad_no_slash
    | apply no_slash_app
    | match goal with
      | |- ~ In _ (js _) => apply notin_existsb; vm_compute; reflexivity
      end ].

Lemma to_iso_string_no_slash (t : Z) : ~ In NodePath.slash (to_iso_string t).
Proof.
  unfold to_iso_string, iso_seconds.
  destruct (civil_from_days (t / 1000 / 86400)) as [[y mo] d].
  unfold year_string; destruct ((0 <=? y) && (y <=? 9999)); [|destruct (y <? 0)]; no_slash.
Qed.

Lemma replace_colon_dot_no_slash (s : jstr) :
  ~ In NodePath.slash s -> ~ In NodePath.slash (replace_colon_dot s).
Proof.
  unfold replace_colon_dot; intros Hs H; apply in_map_iff in H as (c & Hc & Hin).
  destruct (N.eqb c (ch ":") || N.eqb c (ch ".")); [discriminate|subst c; contradiction].
Qed.

Lemma fallback_name_simple (t : Z) : simple_segment (fallback_name t).
Proof.
  unfold fallback_name, simple_segment; repeat split; try discriminate.
  apply no_slash_app; [no_slash|]; apply no_slash_app; [|no_slash].
  apply replace_colon_dot_no_slash, to_iso_string_no_slash.
Qed.

(** The value of a string of decimal digits. *)
Definition dec (l : jstr) : Z := fold_left (fun acc c => acc * 10 + (Z.of_N c - 48)) l 0.

Lemma pad3_facts (m : Z) :
  0 <= m < 1000 -> replace_colon_dot (pad 3 m) = pad 3 m /\ dec (pad 3 m) = m.
Proof.
  intros Hm.
  assert (Hall : forallb (fun k => jstr_eqb (replace_colon_dot (pad 3 k)) (pad 3 k)
                                   && Z.eqb (dec (pad 3 k)) k)
                   (map Z.of_nat (seq 0 1000)) = true) by (vm_compute; reflexivity).
  rewrite forallb_forall in Hall.
  specialize (Hall m ltac:(apply in_map_iff; exists (Z.to_nat m); split;
                             [lia | apply in_seq; lia])).
  apply andb_true_iff in Hall as [H1 H2]; split; [exact (jstr_eqb_true _ _ H1) | lia].
Qed.

(** Within one second, the fallback names of two clock readings are
    equal exactly when the readings are. *)
Lemma fallback_name_same_second (t1 t2 : Z) :
  t1 / 1000 = t2 / 1000 -> fallback_name t1 = fallback_name t2 <-> t1 = t2.
Proof.
  intros Hs; split; [|intros ->; reflexivity].
  unfold fallback_name, to_iso_string, replace_colon_dot; rewrite Hs, !map_app.
  intros H; apply app_inv_head in H.
  repeat rewrite <- app_assoc in H; do 2 apply app_inv_head in H.
  apply app_inv_tail in H.
  destruct (pad3_facts (t1 mod 1000) ltac:(apply Z.mod_pos_bound; lia)) as [R1 D1].
  destruct (pad3_facts (t2 mod 1000) ltac:(apply Z.mod_pos_bound; lia)) as [R2 D2].
  unfold replace_colon_dot in R1, R2; rewrite R1, R2 in H.
  assert (Hm : t1 mod 1000 = t2 mod 1000) by (rewrite <- D1, <- D2, H; reflexivity).
  rewrite (Z.div_mod t1 1000), (Z.div_mod t2 1000) by lia; rewrite Hs, Hm; reflexivity.
Qed.

Lemma mkdir_recursive_fields {RT : JsRuntime} (d : jstr) (w : world) :
  w_fail (mkdir_recursive d w) = w_fail w /\ w_clock (mkdir_recursive d w) = w_clock w
  /\ w_reads (mkdir_recursive d w) = w_reads w.
Proof.
  unfold mkdir_recursive; induction (ancestors (List.length d) d) as [|a l IH]; simpl;
    [auto|]; destruct (existsb _ _); simpl; exact IH.
Qed.

Definition v1_saved (p : jstr) : jstr := js "Successfully saved screenshot to " ++ p.

Lemma screenshot_stem_no_dot (t : Z) :
  ~ In NodePath.dot (js "screenshot-" ++ replace_colon_dot (to_iso_string t)).
Proof.
  apply no_dot_app; [apply notin_existsb; reflexivity | apply replace_colon_dot_no_dot].
Qed.

(** One screenshot without a hint: its path, and the clock it leaves. *)
Lemma fallback_call {RT : JsRuntime} (dir : jstr) (w : world) :
  (forall c, w_fail w c = None) ->
  (exists w', V1.execute dir (V1.Take_Screenshot None) w
              = (Ok (RStr (v1_saved (NodePath.join dir (fallback_name (w_clock w (w_reads w)))))), w')
              /\ w_fail w' = w_fail w /\ w_clock w' = w_clock w /\ w_reads w' = S (w_reads w))
  /\ (exists w', V2.execute dir (V2.takeScreenshot None) w
              = (Ok (RStr (v2_saved (NodePath.join dir (fallback_name (w_clock w (w_reads w)))))), w')
              /\ w_fail w' = w_fail w /\ w_clock w' = w_clock w /\ w_reads w' = S (w_reads w)).
Proof.
  intros Hf.
  assert (He : jstr_eqb (NodePath.extname (js "screenshot-"
                 ++ replace_colon_dot (to_iso_string (w_clock w (w_reads w))))) [] = true)
    by (apply jstr_eqb_nil, extname_no_dot, screenshot_stem_no_dot).
  assert (Hty : screenshot_type (NodePath.join dir (fallback_name (w_clock w (w_reads w))))
                = inr (js "png")).
  { destruct (join_simple dir) as [P HP]; rewrite (HP _ (fallback_name_simple _)).
    unfold fallback_name; rewrite !app_assoc; apply screenshot_type_png. }
  unfold fallback_name in Hty.
  split.
  - unfold V1.execute, V1.take_screenshot, guarded, try_catch, timestamp, date_now, bind,
      pw_screenshot, ret, tick; cbv beta iota zeta; cbn [w_fail w_clock w_reads].
    rewrite Hty, Hf.
    eexists; split; [reflexivity|].
    destruct (mkdir_recursive_fields
                (NodePath.dirname (NodePath.join dir (fallback_name (w_clock w (w_reads w)))))
                (tick w)) as (F1 & F2 & F3).
    unfold tick in F1, F2, F3; simpl in F1, F2, F3; simpl; auto.
  - unfold V2.execute, V2.take_screenshot, guarded, try_catch, V2.screenshot_basename,
      timestamp, date_now, bind, pw_screenshot, ret, tick; cbv beta iota zeta;
      cbn [w_fail w_clock w_reads truthy]; rewrite He.
    rewrite <- app_assoc; rewrite Hty, Hf.
    eexists; split; [reflexivity|].
    destruct (mkdir_recursive_fields
                (NodePath.dirname (NodePath.join dir (fallback_name (w_clock w (w_reads w)))))
                (tick w)) as (F1 & F2 & F3).
    unfold tick in F1, F2, F3; simpl in F1, F2, F3; simpl; auto.
Qed.

Lemma fallback_paths_iff (dir : jstr) (t1 t2 : Z) :
  t1 / 1000 = t2 / 1000 ->
  NodePath.join dir (fallback_name t1) = NodePath.join dir (fallback_name t2) <-> t1 = t2.
Proof.
  intros Hs; destruct (join_simple dir) as [P HP].
  rewrite (HP _ (fallback_name_simple t1)), (HP _ (fallback_name_simple t2)).
  rewrite <- fallback_name_same_second by exact Hs.
  split; [apply app_inv_head | intros ->; reflexivity].
Qed.

(** C6 (amended): of two successive screenshots without a hint whose
    clock readings fall in the same second, the second overwrites the
    first exactly when the two readings are the same millisecond: the
    paths are equal if and only if the readings are.  This holds for both
    suites, which name the file [screenshot-<ISO time with ':' and '.'
    replaced by '-'>.png]. *)
Theorem same_second_paths_iff_same_ms {RT : JsRuntime} (dir : jstr) (w : world) :
  (forall c, w_fail w c = None) ->
  w_clock w (w_reads w) / 1000 = w_clock w (S (w_reads w)) / 1000 ->
  (exists p1 p2 w1 w2,
     V1.execute dir (V1.Take_Screenshot None) w = (Ok (RStr (v1_saved p1)), w1)
     /\ V1.execute dir (V1.Take_Screenshot None) w1 = (Ok (RStr (v1_saved p2)), w2)
     /\ (p1 = p2 <-> w_clock w (w_reads w) = w_clock w (S (w_reads w))))
  /\ (exists p1 p2 w1 w2,
     V2.execute dir (V2.takeScreenshot None) w = (Ok (RStr (v2_saved p1)), w1)
     /\ V2.execute dir (V2.takeScreenshot None) w1 = (Ok (RStr (v2_saved p2)), w2)
     /\ (p1 = p2 <-> w_clock w (w_reads w) = w_clock w (S (w_reads w)))).
Proof.
  intros Hf Hs; destruct (fallback_call dir w Hf) as [(w1 & E1 & F1 & C1 & R1) (v1 & G1 & H1 & D1 & S1)].
  assert (Hf1 : forall c, w_fail w1 c = None) by (intros c; rewrite F1; apply Hf).
  assert (Hg1 : forall c, w_fail v1 c = None) by (intros c; rewrite H1; apply Hf).
  destruct (fallback_call dir w1 Hf1) as [(w2 & E2 & _) _].
  destruct (fallback_call dir v1 Hg1) as [_ (v2 & G2 & _)].
  rewrite C1, R1 in E2; rewrite D1, S1 in G2.
  split; do 4 eexists; (split; [eassumption|]); (split; [eassumption|]);
    apply fallback_paths_iff; exact Hs.
Qed.

(** A clock that moves one millisecond per reading. *)
Definition ticking_world : @world example_runtime :=
  mkWorld [] [] (fun _ => inr []) no_fail home [home] [] (fun n => 1792093020123 + Z.of_nat n) 0 [].

Lemma same_second_paths_iff_same_ms_witness :
  (forall c, @w_fail example_runtime ticking_world c = None)
  /\ w_clock ticking_world (w_reads ticking_world) / 1000
     = w_clock ticking_world (S (w_reads ticking_world)) / 1000
  /\ exists p1 p2 w1 w2,
       V2.execute shots (V2.takeScreenshot None) ticking_world = (Ok (RStr (v2_saved p1)), w1)
       /\ V2.execute shots (V2.takeScreenshot None) w1 = (Ok (RStr (v2_saved p2)), w2)
       /\ p1 <> p2.
Proof.
  split; [reflexivity|]; split; [vm_compute; reflexivity|].
  destruct (@same_second_paths_iff_same_ms example_runtime shots ticking_world
              (fun _ => eq_refl) ltac:(vm_compute; reflexivity))
    as [_ (p1 & p2 & w1 & w2 & E1 & E2 & I)].
  exists p1, p2, w1, w2; split; [exact E1|]; split; [exact E2|].
  intros Hp; apply I in Hp; vm_compute in Hp; discriminate Hp.
Defined.

(** ** C5: the path of a screenshot with a name hint *)

Lemma simple_png (f : jstr) : ~ In NodePath.slash f -> simple_segment (f ++ js ".png").
Proof.
  intros Hs; unfold simple_segment; repeat split.
  - destruct f; discriminate.
  - apply no_slash_app; [exact Hs | no_slash].
  - destruct f as [|c [|d f]]; discriminate.
  - destruct f as [|c [|d [|e f]]]; discriminate.
Qed.

(** C5: [takeScreenshot] appends ".png" to a name hint exactly when
    [path.extname] finds no extension in it; a hint without a slash and
    without extension thus gets a path ending in ".png", which Playwright
    accepts.  A hint with another extension is kept as it is, and when
    Playwright finds no PNG or JPEG type for the resulting path (as for
    "a.txt") it throws before capturing anything: the tool reports the
    failure and the world is left as it was, no file written.
    [Take_Screenshot] passes its hint unchanged, with the same outcome for
    a hint without image extension (as "report"). *)
Theorem take_screenshot_names {RT : JsRuntime} (dir : jstr) (w : world) :
  (forall f, truthy f = true -> NodePath.extname f = [] -> ~ In NodePath.slash f ->
     (forall c, w_fail w c = None) ->
     exists w', V2.execute dir (V2.takeScreenshot (Some f)) w
                = (Ok (RStr (v2_saved (NodePath.join dir (f ++ js ".png")))), w'))
  /\ (forall f e, NodePath.extname f <> [] -> screenshot_type (NodePath.join dir f) = inl e ->
        V2.execute dir (V2.takeScreenshot (Some f)) w
        = (Ok (RStr (js "Failed to take screenshot. Details: " ++ e)), w))
  /\ (forall f e, truthy f = true -> screenshot_type (NodePath.join dir f) = inl e ->
        V1.execute dir (V1.Take_Screenshot (Some f)) w
        = (Ok (RStr (js "Error: Failed to take screenshot. Details: " ++ e)), w)).
Proof.
  split; [|split].
  - intros f Ht He Hs Hf.
    assert (Hty : screenshot_type (NodePath.join dir (f ++ js ".png")) = inr (js "png")).
    { destruct (join_simple dir) as [P HP]; rewrite (HP _ (simple_png f Hs)).
      rewrite app_assoc; apply screenshot_type_png. }
    unfold V2.execute, V2.take_screenshot, guarded, try_catch, V2.screenshot_basename, bind,
      pw_screenshot, ret; rewrite Ht, He; cbn [jstr_eqb]; rewrite Hty, Hf.
    eexists; reflexivity.
  - intros f e He Hty.
    assert (Ht : truthy f = true) by (destruct f; [contradiction He; reflexivity|reflexivity]).
    assert (He' : jstr_eqb (NodePath.extname f) [] = false)
      by (destruct (NodePath.extname f); [contradiction He; reflexivity|reflexivity]).
    unfold V2.execute, V2.take_screenshot, guarded, try_catch, V2.screenshot_basename, bind,
      pw_screenshot, ret; rewrite Ht, He', Hty; reflexivity.
  - intros f e Ht Hty.
    unfold V1.execute, V1.take_screenshot, guarded, try_catch, bind, pw_screenshot, ret;
      rewrite Ht, Hty; reflexivity.
Qed.

Lemma take_screenshot_names_witness :
  let w := @example_world example_runtime [] [] no_fail in
  V2.execute shots (V2.takeScreenshot (Some (js "a.txt"))) w
  = (Ok (RStr (js "Failed to take screenshot. Details: path: unsupported mime type "
               ++ dq ++ js "text/plain" ++ dq)), w)
  /\ V1.execute shots (V1.Take_Screenshot (Some (js "report"))) w
     = (Ok (RStr (js "Error: Failed to take screenshot. Details: path: unsupported mime type "
                  ++ dq ++ js "null" ++ dq)), w)
  /\ exists w', V2.execute shots (V2.takeScreenshot (Some (js "report"))) w
                = (Ok (RStr (v2_saved (js "/home/user/screenshots/report.png"))), w').
Proof.
  intros w.
  destruct (@take_screenshot_names example_runtime shots w) as (H1 & H2 & H3).
  split; [|split].
  - exact (H2 (js "a.txt") _ ltac:(vm_compute; discriminate) ltac:(vm_compute; reflexivity)).
  - exact (H3 (js "report") _ eq_refl ltac:(vm_compute; reflexivity)).
  - exact (H1 (js "report") eq_refl ltac:(vm_compute; reflexivity)
              ltac:(vm_compute; intros [H|[H|[H|[H|[H|[H|[]]]]]]]; discriminate H)
              (fun _ => eq_refl)).
Defined.

(** ** C7: the interactive-element listings *)




Lemma fold_push {A B} (p : A -> bool) (f : A -> B) (l : list A) (acc : list B) :
  fold_left (fun acc a => if p a then acc ++ [f a] else acc) l acc = acc ++ map f (filter p l).
Proof.
  revert acc; induction l as [|a l IH]; intros acc; simpl; [symmetry; apply app_nil_r|].
  destruct (p a); rewrite IH; [simpl; rewrite <- app_assoc|]; reflexivity.
Qed.

Lemma filter_filter {A} (p q : A -> bool) (l : list A) :
  filter q (filter p l) = filter (fun a => p a && q a) l.
Proof.
  induction l as [|a l IH]; simpl; [reflexivity|].
  destruct (p a); simpl; [destruct (q a)|]; rewrite ?IH; reflexivity.
Qed.






(** ** C8: find by text *)

(** Whether the walker of [findElementsByText] keeps an element it visits. *)
Definition text_hit {RT : JsRuntime} (search_text : jstr) (node : element) : bool :=
  match el_inner_text node with
  | Some it => (truthy it && includes (to_lower it) (to_lower search_text))
               && (Qpos (r_width (el_rect node)) && Qpos (r_height (el_rect node)))
  | None => false
  end.

(** The entry it pushes for a kept element. *)
Definition match_info (node : element) : text_match_info :=
  let it := match el_inner_text node with Some it => it | None => [] end in
  let r := el_rect node in
  {| tm_tag := el_tag node; tm_text := trim it; tm_selector := firstn 100 (el_outer_html node);
     tm_x := js_round (r_left r + r_width r / 2); tm_y := js_round (r_top r + r_height r / 2) |}.

Lemma fold_left_ext_l {A B} (f g : B -> A -> B) (l : list A) (acc : B) :
  (forall b a, f b a = g b a) -> fold_left f l acc = fold_left g l acc.
Proof. revert acc; induction l as [|a l IH]; intros acc H; simpl; [|rewrite H, IH]; auto. Qed.

Lemma find_text_script_filter {RT : JsRuntime} (search_text : jstr) (dom : list element) :
  V2.find_text_script search_text dom
  = map match_info (filter (fun e => el_in_body e && text_hit search_text e) dom).
Proof.
  unfold V2.find_text_script.
  rewrite (fold_left_ext_l _ (fun acc a => if text_hit search_text a then acc ++ [match_info a]
                                            else acc)).
  - rewrite fold_push, filter_filter; reflexivity.
  - intros acc node; unfold text_hit, match_info.
    destruct (el_inner_text node) as [it|]; [|reflexivity].
    destruct (truthy it && includes (to_lower it) (to_lower search_text)); [|reflexivity].
    destruct (Qpos (r_width (el_rect node)) && Qpos (r_height (el_rect node))); reflexivity.
Qed.

Definition body_el : element :=
  mkElement (js "body") [] None None false None None None (Some (js "Welcome home"))
    800 600 {| r_left := 0; r_top := 0; r_width := 800; r_height := 600 |} false
    (js "<body>Welcome home</body>") None false [] (js "Welcome home") [].

(** C8 (counterexample): the tree walker starts below [document.body], so
    [body] itself is never a match, although it is rendered with a
    positive size and its text contains the search string. *)
Lemma C8_body_not_searched :
  let w := @example_world example_runtime [body_el] [] no_fail in
  fst (V2.execute home (V2.findElementsByText (js "welcome")) w)
  = Ok (RStr (js "No elements found with text " ++ dq ++ js "welcome" ++ dq ++ js "."))
  /\ includes (ascii_lower (el_text body_el)) (js "welcome") = true
  /\ Qpos (r_width (el_rect body_el)) && Qpos (r_height (el_rect body_el)) = true.
Proof. vm_compute; repeat split. Qed.

(** C8 (amended): when [page.evaluate] does not fail, the matches of
    [findElementsByText] are, in document order, exactly the elements
    strictly inside [body] whose [innerText] is non-empty and contains the
    search text after both are lower-cased, and whose bounding box has a
    positive width and height; the tool reports their number and the
    first five of them, or that there is none. *)
Theorem find_elements_by_text_matches {RT : JsRuntime} (dir : jstr) (w : world) (text : jstr) :
  w_fail w (CEvaluate (SFindText text)) = None ->
  let ms := map match_info (filter (fun e => el_in_body e && text_hit text e) (w_dom w)) in
  V2.find_text_script text (w_dom w) = ms
  /\ fst (V2.execute dir (V2.findElementsByText text) w)
     = Ok (RStr (match ms with
                 | [] => js "No elements found with text " ++ dq ++ text ++ dq ++ js "."
                 | _ => js "Found " ++ nat_to_dec (List.length ms)
                        ++ js " elements with text " ++ dq ++ text ++ dq ++ js "." ++ nl
                        ++ js "Details (first 5):" ++ nl
                        ++ json_stringify_matches (firstn 5 ms)
                 end)).
Proof.
  intros H ms; split; [apply find_text_script_filter|].
  unfold V2.execute, V2.find_elements_by_text, guarded, try_catch, bind, pw_evaluate; rewrite H.
  rewrite find_text_script_filter; fold ms; destruct ms; reflexivity.
Qed.

Definition search_page : list element :=
  [body_el; leaf "p" "Welcome back" None 200 20; leaf "span" "Not shown" None 0 0;
   leaf "h1" "WELCOME" None 300 40].

Lemma find_elements_by_text_matches_witness :
  V2.find_text_script (js "welcome") search_page
  = [match_info (leaf "p" "Welcome back" None 200 20); match_info (leaf "h1" "WELCOME" None 300 40)].
Proof.
  refine (eq_trans (proj1 (@find_elements_by_text_matches example_runtime home
                    (example_world search_page [] no_fail) (js "welcome") eq_refl)) _).
  vm_compute; reflexivity.
Defined.

(** ** [String.prototype.trim] *)

Lemma trim_start_spaces (a s : jstr) :
  forallb js_space a = true -> trim_start (a ++ s) = trim_start s.
Proof.
  induction a as [|c a IH]; simpl; [reflexivity|].
  intros H; apply andb_true_iff in H as [H1 H2]; rewrite H1; auto.
Qed.

Lemma trim_start_nil_iff (s : jstr) : trim_start s = [] <-> forallb js_space s = true.
Proof.
  induction s as [|c s IH]; simpl; [tauto|].
  destruct (js_space c); simpl; [exact IH | split; discriminate].
Qed.

Lemma trim_start_app_spaces (s b : jstr) :
  forallb js_space b = true ->
  trim_start (s ++ b) = trim_start s ++ b \/ (trim_start s = [] /\ trim_start (s ++ b) = []).
Proof.
  intros Hb; induction s as [|c s IH]; simpl.
  - right; split; [reflexivity|]; apply trim_start_nil_iff, Hb.
  - destruct (js_space c); [exact IH | left; reflexivity].
Qed.

Lemma forallb_rev {A} (f : A -> bool) (l : list A) : forallb f (rev l) = forallb f l.
Proof.
  induction l as [|x l IH]; simpl; [reflexivity|].
  rewrite forallb_app, IH; simpl; rewrite andb_true_r, andb_comm; reflexivity.
Qed.

(** White space around a string does not change what [trim] gives. *)
Lemma trim_spaces (a s b : jstr) :
  forallb js_space a = true -> forallb js_space b = true -> trim (a ++ s ++ b) = trim s.
Proof.
  intros Ha Hb; unfold trim; rewrite trim_start_spaces by exact Ha.
  destruct (trim_start_app_spaces s b Hb) as [E|[E1 E2]].
  - rewrite E, rev_app_distr, trim_start_spaces; [reflexivity|].
    rewrite forallb_rev; exact Hb.
  - rewrite E1, E2; reflexivity.
Qed.

Lemma trim_start_head (s t : jstr) (c : N) : trim_start s = c :: t -> js_space c = false.
Proof.
  induction s as [|d s IH]; simpl; [discriminate|].
  destruct (js_space d) eqn:E; [exact IH|]; intros H; injection H as -> _; exact E.
Qed.

Lemma trim_start_snoc (s : jstr) (h : N) :
  js_space h = false -> trim_start (s ++ [h]) = trim_start s ++ [h].
Proof.
  intros Hh; induction s as [|c s IH]; simpl; [rewrite Hh; reflexivity|].
  destruct (js_space c); [exact IH | reflexivity].
Qed.

Lemma trim_cons (s t : jstr) (h : N) :
  trim_start s = h :: t -> trim s = h :: rev (trim_start (rev t)).
Proof.
  intros E; unfold trim; rewrite E; simpl.
  rewrite trim_start_snoc by exact (trim_start_head _ _ _ E).
  rewrite rev_app_distr; reflexivity.
Qed.

Lemma trim_nil_iff (s : jstr) : trim s = [] <-> forallb js_space s = true.
Proof.
  rewrite <- trim_start_nil_iff; split.
  - intros H; destruct (trim_start s) as [|h t] eqn:E; [reflexivity|].
    rewrite (trim_cons _ _ _ E) in H; discriminate.
  - intros H; unfold trim; rewrite H; reflexivity.
Qed.

(** What [trim] gives neither starts nor ends with white space. *)
Lemma trim_ends (s : jstr) :
  trim s <> [] -> js_space (hd 0%N (trim s)) = false /\ js_space (last (trim s) 0%N) = false.
Proof.
  intros Hne; destruct (trim_start s) as [|h t] eqn:E.
  - exfalso; apply Hne; unfold trim; rewrite E; reflexivity.
  - rewrite (trim_cons _ _ _ E); split; [exact (trim_start_head _ _ _ E)|].
    destruct (trim_start (rev t)) as [|c u] eqn:E2.
    + exact (trim_start_head _ _ _ E).
    + change (h :: rev (c :: u)) with ((h :: rev u) ++ [c]); rewrite last_last.
      exact (trim_start_head _ _ _ E2).
Qed.

Lemma trim_start_id (s : jstr) : js_space (hd 0%N s) = false -> trim_start s = s.
Proof. destruct s as [|c s]; simpl; [reflexivity|]; intros ->; reflexivity. Qed.

Lemma hd_rev_last (s : jstr) : hd 0%N (rev s) = last s 0%N.
Proof.
  induction s as [|c s IH] using rev_ind; [reflexivity|].
  rewrite rev_app_distr, last_last; reflexivity.
Qed.

Lemma trim_idem (s : jstr) : trim (trim s) = trim s.
Proof.
  destruct (trim s) as [|c u] eqn:E; [reflexivity|].
  assert (Hne : trim s <> []) by (rewrite E; discriminate).
  destruct (trim_ends s Hne) as [H1 H2]; rewrite E in H1, H2.
  unfold trim at 1; rewrite (trim_start_id (c :: u)) by exact H1.
  rewrite trim_start_id, rev_involutive; [reflexivity|].
  rewrite hd_rev_last; exact H2.
Qed.

(** ** [src/index.js]: the agent runner and the command line *)

Section Index.

Context {RT : JsRuntime}.

(** The calls [index.js] makes outside the tools. *)
Inductive agent_call :=
| ALaunch                 (* chromium.launch({ headless: false }) *)
| ANewPage                (* browser.newPage() *)
| ARun (message : jstr)   (* run(agent, message) *)
| ASleep (ms : Z)         (* new Promise(resolve => setTimeout(resolve, ms)) *)
| AClose                  (* browser.close() *)
| APrompt                 (* rl.prompt() *)
| ARlClose                (* rl.close() *)
| AExit (code : Z).       (* process.exit(code) *)

(** Console output is not modelled, except what [console.error] reports. *)
Record agent_world := mkAgentWorld {
  a_tools : world;                      (* the page and the file system createBrowserTools sees *)
  a_fail : agent_call -> option jstr;   (* the message a call rejects with, if any *)
  a_browser : bool;                     (* the [browser] of runAgentTask is not null *)
  a_calls : list agent_call;            (* calls made, in order *)
  a_errors : list jstr                  (* messages reported by console.error *)
}.

Definition AM (A : Type) := agent_world -> res A * agent_world.

Definition aret {A} (a : A) : AM A := fun aw => (Ok a, aw).

Definition abind {A B} (m : AM A) (f : A -> AM B) : AM B :=
  fun aw => match m aw with
            | (Ok a, aw') => f a aw'
            | (Exn e, aw') => (Exn e, aw')
            end.

Local Notation "m >> k" := (abind m (fun _ => k)) (at level 61, right associativity).

(** [try { m } catch (error) { h(error) }]. *)
Definition atry_catch {A} (m : AM A) (h : jstr -> AM A) : AM A :=
  fun aw => match m aw with
            | (Exn e, aw') => h e aw'
            | r => r
            end.

(** [try { m } finally { f }]: an abrupt [f] replaces the outcome of [m]. *)
Definition atry_finally {A} (m : AM A) (f : AM unit) : AM A :=
  fun aw => let (r, aw1) := m aw in
            match f aw1 with
            | (Ok _, aw2) => (r, aw2)
            | (Exn e, aw2) => (Exn e, aw2)
            end.

Definition record_call (c : agent_call) (aw : agent_world) : agent_world :=
  mkAgentWorld (a_tools aw) (a_fail aw) (a_browser aw) (a_calls aw ++ [c]) (a_errors aw).

(** A call that may reject: launch, newPage, run, close. *)
Definition ext_call (c : agent_call) : AM unit :=
  fun aw => match a_fail aw c with
            | Some m => (Exn m, record_call c aw)
            | None => (Ok tt, record_call c aw)
            end.

(** A call that always completes: the timer, [rl.prompt], [rl.close];
    [process.exit] does not return, and nothing follows it. *)
Definition ext_do (c : agent_call) : AM unit := fun aw => (Ok tt, record_call c aw).

Definition set_browser (b : bool) : AM unit :=
  fun aw => (Ok tt, mkAgentWorld (a_tools aw) (a_fail aw) b (a_calls aw) (a_errors aw)).

Definition get_browser : AM bool := fun aw => (Ok (a_browser aw), aw).

(** [console.error(..., error)]. *)
Definition report (e : jstr) : AM unit :=
  fun aw => (Ok tt, mkAgentWorld (a_tools aw) (a_fail aw) (a_browser aw) (a_calls aw)
                                 (a_errors aw ++ [e])).

(** A computation of the tools' monad, run on the tools' world. *)
Definition lift {A} (m : M A) : AM A :=
  fun aw => let (r, w') := m (a_tools aw) in
            (r, mkAgentWorld w' (a_fail aw) (a_browser aw) (a_calls aw) (a_errors aw)).

(** [runAgentTask] (lines 84-117); [createBrowserTools] is the second suite's. *)
Definition run_agent_task (message : jstr) : AM unit :=
  set_browser false >>
  atry_finally
    (atry_catch
       (ext_call ALaunch >> set_browser true >>
        ext_call ANewPage >>
        lift V2.create_browser_tools >>
        ext_call (ARun message) >>
        ext_do (ASleep 3000))
       report)
    (abind get_browser (fun b => if b then ext_call AClose else aret tt)).

(** The ['line'] handler of [main] (lines 142-155).  [rl.close()] emits
    ['close'], whose handler (lines 155-157) exits with code 0 as well. *)
Definition on_line (line : jstr) : AM unit :=
  let task := trim line in
  if jstr_eqb (to_lower task) (js "exit") then ext_do ARlClose >> ext_do (AExit 0)
  else (if truthy task then run_agent_task task else aret tt) >> ext_do APrompt.

End Index.

Section IndexFacts.

Context {RT : JsRuntime}.

(** Case analysis on every outcome the calls of a computation may have. *)
Ltac agent_cases :=
  repeat (cbn -[V2.create_browser_tools];
          match goal with
          | H : ?x = _ |- context [?x] => rewrite H
          | |- context [V2.create_browser_tools ?w] =>
              destruct (V2.create_browser_tools w) as [[?|?] ?] eqn:?
          | |- context [a_fail ?aw ?c] => destruct (a_fail aw c) eqn:?
          end);
  cbn -[V2.create_browser_tools]; rewrite <- ?app_assoc, ?app_nil_r; reflexivity.

Definition agent_steps (message : jstr) (aw : agent_world) : list agent_call :=
  match a_fail aw ALaunch with
  | Some _ => []
  | None =>
      ANewPage ::
      match a_fail aw ANewPage with
      | Some _ => []
      | None => match fst (V2.create_browser_tools (a_tools aw)) with
                | Exn _ => []
                | Ok _ => ARun message :: match a_fail aw (ARun message) with
                                          | Some _ => []
                                          | None => [ASleep 3000]
                                          end
                end
      end ++ [AClose]
  end.

Lemma run_agent_task_calls (message : jstr) (aw : agent_world) :
  a_calls (snd (run_agent_task message aw)) = a_calls aw ++ ALaunch :: agent_steps message aw.
Proof.
  unfold run_agent_task, agent_steps, abind, atry_finally, atry_catch, set_browser, ext_call,
    get_browser, ext_do, lift, report, aret.
  agent_cases.
Qed.

Definition first_failure (message : jstr) (aw : agent_world) : list jstr :=
  match a_fail aw ALaunch with
  | Some e => [e]
  | None =>
      match a_fail aw ANewPage with
      | Some e => [e]
      | None => match fst (V2.create_browser_tools (a_tools aw)) with
                | Exn e => [e]
                | Ok _ => match a_fail aw (ARun message) with Some e => [e] | None => [] end
                end
      end
  end.

Lemma run_agent_task_result (message : jstr) (aw : agent_world) :
  fst (run_agent_task message aw)
  = match a_fail aw ALaunch with
    | Some _ => Ok tt
    | None => match a_fail aw AClose with Some e => Exn e | None => Ok tt end
    end.
Proof.
  unfold run_agent_task, abind, atry_finally, atry_catch, set_browser, ext_call,
    get_browser, ext_do, lift, report, aret.
  agent_cases.
Qed.

Lemma run_agent_task_errors (message : jstr) (aw : agent_world) :
  a_errors (snd (run_agent_task message aw)) = a_errors aw ++ first_failure message aw.
Proof.
  unfold run_agent_task, first_failure, abind, atry_finally, atry_catch, set_browser, ext_call,
    get_browser, ext_do, lift, report, aret.
  agent_cases.
Qed.

(** [runAgentTask] calls [chromium.launch] first; then, only if it
    resolved, [newPage]; [run(agent, message)] only if [newPage] resolved
    and [createBrowserTools] returned; the 3-second wait only if [run]
    resolved; and [browser.close()] once, last, exactly when the launch
    resolved. *)
Theorem run_agent_task_call_order (message : jstr) (aw : agent_world) :
  a_calls (snd (run_agent_task message aw)) = a_calls aw ++ ALaunch :: agent_steps message aw.
Proof. apply run_agent_task_calls. Qed.

(** [runAgentTask] rejects only when the browser was launched and
    [browser.close()] rejects, with that error; the first failure of the
    launch, [newPage], [createBrowserTools] or [run] is reported by
    [console.error] and swallowed, and nothing else is reported. *)
Theorem run_agent_task_outcome (message : jstr) (aw : agent_world) :
  fst (run_agent_task message aw)
  = match a_fail aw ALaunch with
    | Some _ => Ok tt
    | None => match a_fail aw AClose with Some e => Exn e | None => Ok tt end
    end
  /\ a_errors (snd (run_agent_task message aw)) = a_errors aw ++ first_failure message aw.
Proof. split; [apply run_agent_task_result | apply run_agent_task_errors]. Qed.

Local Notation "m >> k" := (abind m (fun _ => k)) (at level 61, right associativity).

(** White space around a line does not change what the handler does. *)
Theorem on_line_ignores_spaces (a line b : jstr) :
  forallb js_space a = true -> forallb js_space b = true ->
  on_line (a ++ line ++ b) = on_line line.
Proof. intros Ha Hb; unfold on_line; rewrite trim_spaces by assumption; reflexivity. Qed.

(** A line either ends the program ([rl.close()] then [process.exit(0)])
    when its trimmed text lower-cases to ["exit"], or only prompts again
    when it is white space, or runs the agent on its trimmed text, which is
    non-empty, has no white space at either end and does not lower-case
    to ["exit"], and then prompts again. *)
Theorem on_line_cases (line : jstr) :
  (to_lower (trim line) = js "exit" /\ on_line line = (ext_do ARlClose >> ext_do (AExit 0)))
  \/ (forallb js_space line = true /\ on_line line = ext_do APrompt)
  \/ (exists task, on_line line = (run_agent_task task >> ext_do APrompt)
                   /\ task = trim line /\ task <> [] /\ trim task = task
                   /\ js_space (hd 0%N task) = false /\ js_space (last task 0%N) = false
                   /\ to_lower task <> js "exit").
Proof.
  unfold on_line.
  destruct (jstr_eqb (to_lower (trim line)) (js "exit")) eqn:Ex.
  - left; split; [apply jstr_eqb_true, Ex | reflexivity].
  - right; destruct (trim line) as [|c t] eqn:Et.
    + left; split; [apply trim_nil_iff, Et | reflexivity].
    + right; exists (c :: t); rewrite <- Et.
      assert (Hne : trim line <> []) by (rewrite Et; discriminate).
      destruct (trim_ends line Hne) as [H1 H2].
      repeat split; try assumption; [rewrite Et; reflexivity | apply trim_idem |].
      intros He; rewrite Et in He; rewrite He in Ex; vm_compute in Ex; discriminate.
Qed.

(** A line that is not ["exit"] ends with a new prompt and the handler
    resolves, except when it ran a task whose browser was launched and
    [browser.close()] rejected: then the handler rejects with that error
    right after the close, and no prompt is shown. *)
Theorem on_line_prompts (line : jstr) (aw : agent_world) :
  jstr_eqb (to_lower (trim line)) (js "exit") = false ->
  (fst (on_line line aw) = Ok tt /\ last (a_calls (snd (on_line line aw))) AClose = APrompt)
  \/ (truthy (trim line) = true /\ a_fail aw ALaunch = None
      /\ exists e, a_fail aw AClose = Some e /\ fst (on_line line aw) = Exn e
                   /\ last (a_calls (snd (on_line line aw))) APrompt = AClose).
Proof.
  intros Hx; unfold on_line; rewrite Hx.
  destruct (truthy (trim line)) eqn:T.
  - pose proof (run_agent_task_result (trim line) aw) as R.
    pose proof (run_agent_task_calls (trim line) aw) as C.
    unfold abind; destruct (run_agent_task (trim line) aw) as [r aw'].
    cbn in R, C |- *.
    destruct (a_fail aw ALaunch) eqn:L; [left; subst r; split; [reflexivity|]|].
    + unfold ext_do, record_call; cbn; apply last_last.
    + destruct (a_fail aw AClose) eqn:Cl; subst r.
      * right; split; [reflexivity|]; split; [reflexivity|]; exists j; split; [reflexivity|].
        split; [reflexivity|]; cbn; rewrite C; unfold agent_steps; rewrite L.
        rewrite !app_comm_cons, app_assoc; apply last_last.
      * left; split; [reflexivity|]; unfold ext_do, record_call; cbn; apply last_last.
  - left; split; [reflexivity|]; unfold aret, ext_do, record_call; cbn; apply last_last.
Qed.

End IndexFacts.

(** ** What the tools change in the world *)

Section Effects.

Context {RT : JsRuntime}.

(** A computation that changes nothing but appends to the log of calls. *)
Definition logs_only {A} (m : M A) : Prop :=
  forall w, exists l, snd (m w) = mkWorld (w_dom w) (w_html w) (w_css w) (w_fail w) (w_cwd w)
                                         (w_dirs w) (w_files w) (w_clock w) (w_reads w)
                                         (w_log w ++ l).

Lemma world_eta (w : world) :
  w = mkWorld (w_dom w) (w_html w) (w_css w) (w_fail w) (w_cwd w) (w_dirs w) (w_files w)
              (w_clock w) (w_reads w) (w_log w).
Proof. destruct w; reflexivity. Qed.

Lemma logs_same {A} (m : M A) : (forall w, snd (m w) = w) -> logs_only m.
Proof. intros H w; exists []; rewrite H, app_nil_r; apply world_eta. Qed.

Lemma logs_one {A} (m : M A) (f : world -> event) :
  (forall w, snd (m w) = w \/ snd (m w) = log (f w) w) -> logs_only m.
Proof.
  intros H w; destruct (H w) as [E|E]; rewrite E; [exists []; rewrite app_nil_r; apply world_eta|].
  exists [f w]; reflexivity.
Qed.

Lemma logs_ret {A} (a : A) : logs_only (ret a).
Proof. apply logs_same; reflexivity. Qed.

Lemma logs_bind {A B} (m : M A) (f : A -> M B) :
  logs_only m -> (forall a, logs_only (f a)) -> logs_only (bind m f).
Proof.
  intros Hm Hf w; unfold bind; destruct (Hm w) as [l1 E1].
  destruct (m w) as [[a|e] w1]; simpl in E1; subst w1; [|exists l1; reflexivity].
  destruct (Hf a (mkWorld (w_dom w) (w_html w) (w_css w) (w_fail w) (w_cwd w) (w_dirs w)
                          (w_files w) (w_clock w) (w_reads w) (w_log w ++ l1))) as [l2 E2].
  exists (l1 ++ l2); rewrite E2, app_assoc; reflexivity.
Qed.

Lemma logs_try_catch {A} (m : M A) h :
  logs_only m -> (forall e, logs_only (h e)) -> logs_only (try_catch m h).
Proof.
  intros Hm Hh w; unfold try_catch; destruct (Hm w) as [l1 E1].
  destruct (m w) as [[a|e] w1]; simpl in E1; subst w1; [exists l1; reflexivity|].
  destruct (Hh e (mkWorld (w_dom w) (w_html w) (w_css w) (w_fail w) (w_cwd w) (w_dirs w)
                          (w_files w) (w_clock w) (w_reads w) (w_log w ++ l1))) as [l2 E2].
  exists (l1 ++ l2); rewrite E2, app_assoc; reflexivity.
Qed.

Lemma logs_guarded prefix what body : logs_only body -> logs_only (guarded prefix what body).
Proof. intros H; apply logs_try_catch; [exact H | intros; apply logs_ret]. Qed.

Lemma logs_pw_call c : logs_only (pw_call c).
Proof.
  apply (logs_one _ (fun _ => Did c)); intros w; unfold pw_call; destruct (w_fail w c); auto.
Qed.

Lemma logs_pw_count q : logs_only (pw_count q).
Proof.
  apply logs_same; intros w; unfold pw_count.
  destruct (w_fail w (CCount q)); [|destruct (query_all w q)]; reflexivity.
Qed.

Lemma logs_pw_click_first q : logs_only (pw_click_first q).
Proof.
  apply (logs_one _ (fun w => match query_all w q with
                              | inr (e :: _) => Clicked e
                              | _ => Did (CClickFirst q)
                              end)).
  intros w; unfold pw_click_first.
  destruct (w_fail w (CClickFirst q)); [|destruct (query_all w q) as [|[|]]]; auto.
Qed.

Lemma logs_pw_evaluate {A} s (f : list element -> A) : logs_only (pw_evaluate s f).
Proof. apply logs_same; intros w; unfold pw_evaluate; destruct (w_fail w (CEvaluate s)); reflexivity. Qed.

Lemma logs_pw_content : logs_only pw_content.
Proof. apply logs_same; intros w; unfold pw_content; destruct (w_fail w CContent); reflexivity. Qed.

Lemma logs_regexp_new_m src flags : logs_only (regexp_new_m src flags).
Proof. apply logs_same; intros w; unfold regexp_new_m; destruct (regexp_new src flags); reflexivity. Qed.

End Effects.

#[export] Hint Resolve logs_ret logs_pw_call logs_pw_count logs_pw_click_first logs_pw_evaluate
  logs_pw_content logs_regexp_new_m : frame.

Ltac logs_frame :=
  repeat first
    [ progress intros
    | apply logs_bind
    | apply logs_guarded
    | solve [ auto with frame ]
    | match goal with
      | |- logs_only (if ?b then _ else _) => destruct b
      | |- logs_only (match ?x with _ => _ end) => destruct x
      end
    | unfold V1.try_locator ].

(** What a tool leaves alone: the directories, the files and the clock;
    it only appends to the log of calls. *)
Definition keeps_fs_and_clock {RT : JsRuntime} {A} (m : M A) : Prop :=
  forall w, w_dirs (snd (m w)) = w_dirs w /\ w_files (snd (m w)) = w_files w
            /\ w_reads (snd (m w)) = w_reads w
            /\ exists l, w_log (snd (m w)) = w_log w ++ l.

Lemma logs_only_keeps {RT : JsRuntime} {A} (m : M A) : logs_only m -> keeps_fs_and_clock m.
Proof.
  intros H w; destruct (H w) as [l E]; rewrite E; repeat split; exists l; reflexivity.
Qed.

(** Every tool but the two screenshot tools leaves the directories, the
    files and the clock as they are, whether it succeeds or fails: it only
    makes browser calls. *)
Theorem tools_only_call_browser {RT : JsRuntime} (dir : jstr) (t1 : V1.tool) (t2 : V2.tool) :
  (keeps_fs_and_clock (V1.execute dir t1) \/ exists f, t1 = V1.Take_Screenshot f)
  /\ (keeps_fs_and_clock (V2.execute dir t2) \/ exists f, t2 = V2.takeScreenshot f).
Proof.
  split.
  - destruct t1; [left..| right; eauto | left | left]; apply logs_only_keeps; unfold V1.execute;
      unfold V1.open_web_page, V1.get_dom_elements, V1.click_element, V1.fill_input,
        V1.task_complete, V1.get_page_html; logs_frame.
  - destruct t2; [left | right; eauto | left..]; apply logs_only_keeps; unfold V2.execute;
      unfold V2.go_to_page, V2.get_page_elements, V2.fill_field, V2.scroll_page, V2.type_text,
        V2.click_at_coordinates, V2.drag_and_drop, V2.get_page_html, V2.find_elements_by_text;
      logs_frame.
Qed.


Section Screenshots.

Context {RT : JsRuntime}.

Lemma mkdir_recursive_adds (d : jstr) (w : world) :
  exists ds, w_dirs (mkdir_recursive d w) = w_dirs w ++ ds
             /\ incl ds (ancestors (List.length d) d)
             /\ w_files (mkdir_recursive d w) = w_files w
             /\ w_log (mkdir_recursive d w) = w_log w
             /\ w_fail (mkdir_recursive d w) = w_fail w.
Proof.
  unfold mkdir_recursive; induction (ancestors (List.length d) d) as [|a l IH]; simpl.
  - exists []; rewrite app_nil_r; repeat split; auto. intros x [].
  - destruct IH as (ds & H1 & H2 & H3 & H4 & H5).
    destruct (existsb _ _); simpl.
    + exists ds; repeat split; auto; intros x Hx; right; apply H2, Hx.
    + exists (ds ++ [a]); rewrite H1, app_assoc; repeat split; auto.
      intros x Hx; apply in_app_or in Hx as [Hx|[<-|[]]]; [right; apply H2, Hx | left; reflexivity].
Qed.

(** What a screenshot tool does: it reports [ok_prefix ++ p] after writing
    the file [p], creating only ancestors of [p] as directories; or it
    reports the failure and leaves the files, the directories and the log
    as they were. *)
Definition screenshot_effect (m : M toolret) (fail_prefix ok_prefix : jstr) (w : world) : Prop :=
  match m w with
  | (Ok (RStr s), w') =>
      (exists p ds, s = ok_prefix ++ p /\ w_files w' = w_files w ++ [p]
                    /\ w_dirs w' = w_dirs w ++ ds
                    /\ incl ds (ancestors (List.length (NodePath.dirname p)) (NodePath.dirname p))
                    /\ w_log w' = w_log w ++ [Did (CScreenshot p)])
      \/ (exists e, s = fail_prefix ++ js "Failed to take screenshot. Details: " ++ e
                    /\ w_files w' = w_files w /\ w_dirs w' = w_dirs w /\ w_log w' = w_log w)
  | _ => False
  end.

Lemma screenshot_generic (fail_prefix ok_prefix : jstr) (m : M jstr) (g : jstr -> jstr) (w : world) :
  (forall w, exists x, m w = (Ok x, w) \/ m w = (Ok x, tick w)) ->
  screenshot_effect
    (guarded fail_prefix (js "take screenshot")
       (x <- m;; pw_screenshot (g x);;; ret (RStr (ok_prefix ++ g x))))
    fail_prefix ok_prefix w.
Proof.
  intros Hm; destruct (Hm w) as [x E].
  assert (Hw : exists w1, m w = (Ok x, w1) /\ w_files w1 = w_files w /\ w_dirs w1 = w_dirs w
                          /\ w_log w1 = w_log w /\ w_fail w1 = w_fail w)
    by (destruct E as [E|E]; rewrite E; eexists; repeat split).
  clear E; destruct Hw as (w1 & E & F1 & F2 & F3 & F4).
  unfold screenshot_effect, guarded, try_catch, bind; rewrite E; unfold pw_screenshot.
  destruct (screenshot_type (g x)) as [e|ty]; [right; exists e; repeat split; auto|].
  rewrite F4; destruct (w_fail w (CScreenshot (g x))) as [e|].
  - right; exists e; repeat split; auto.
  - left; destruct (mkdir_recursive_adds (NodePath.dirname (g x)) w1) as (ds & D1 & D2 & D3 & D4 & _).
    exists (g x), ds; cbn; rewrite D1, D3, D4, F1, F2, F3; repeat split; auto.
Qed.

Lemma timestamp_ticks (w : world) : timestamp w = (Ok (replace_colon_dot (to_iso_string (w_clock w (w_reads w)))), tick w).
Proof. reflexivity. Qed.

(** Both screenshot tools write exactly the file whose path they report,
    creating at most the missing ancestors of its directory; when the
    screenshot fails they report it and change no file, directory or log. *)
Theorem take_screenshot_effect (dir : jstr) (filename : option jstr) (w : world) :
  screenshot_effect (V1.execute dir (V1.Take_Screenshot filename))
                    (js "Error: ") (js "Successfully saved screenshot to ") w
  /\ screenshot_effect (V2.execute dir (V2.takeScreenshot filename))
                       [] (js "Screenshot saved successfully at ") w.
Proof.
  split.
  - unfold V1.execute, V1.take_screenshot; apply screenshot_generic.
    intros w'; destruct filename as [f|]; [destruct (truthy f)|];
      unfold bind, ret; rewrite ?timestamp_ticks; eauto.
  - unfold V2.execute, V2.take_screenshot; apply screenshot_generic.
    intros w'; unfold V2.screenshot_basename.
    destruct filename as [f|]; [destruct (truthy f)|];
      unfold bind, ret; rewrite ?timestamp_ticks; eauto.
Qed.

End Screenshots.

Section Clicks.

Context {RT : JsRuntime}.

Lemma starts_with_app_r (p s t : jstr) : starts_with p s = true -> starts_with p (s ++ t) = true.
Proof.
  revert s; induction p as [|x p IH]; intros [|y s]; simpl; try discriminate; auto.
  intros H; apply andb_true_iff in H as [H1 H2]; rewrite H1, (IH _ H2); reflexivity.
Qed.

(** The outcomes of the body of [Click_Element]: it throws or reports an
    error without changing the world, or it clicked one element and
    reports it. *)
Definition click_body (m : M toolret) : Prop :=
  forall w, (snd (m w) = w /\ match fst (m w) with
                              | Exn _ => True
                              | Ok (RStr s) => starts_with (js "Error: ") s = true
                              | Ok (RElems _) => False
                              end)
            \/ (exists e s, m w = (Ok (RStr s), log (Clicked e) w)
                            /\ starts_with (js "Successfully clicked ") s = true).

Lemma click_body_try_locator (q : query) (msg : jstr) (k : M toolret) :
  starts_with (js "Successfully clicked ") msg = true -> click_body k ->
  click_body (V1.try_locator q msg k).
Proof.
  intros Hmsg Hk w; unfold V1.try_locator, bind, pw_count.
  destruct (w_fail w (CCount q)); [left; split; [reflexivity | exact I]|].
  destruct (query_all w q) as [e|l] eqn:Q; [left; split; [reflexivity | exact I]|].
  destruct (Nat.ltb 0 (List.length l)) eqn:L; [|apply Hk].
  unfold pw_click_first; destruct (w_fail w (CClickFirst q)); [left; split; [reflexivity | exact I]|].
  rewrite Q; destruct l as [|e l]; [discriminate|].
  right; exists e, msg; split; [reflexivity | exact Hmsg].
Qed.

Lemma click_body_regexp (src flags : jstr) (f : regexp -> M toolret) :
  (forall r, click_body (f r)) -> click_body (bind (regexp_new_m src flags) f).
Proof.
  intros Hf w; unfold bind, regexp_new_m; destruct (regexp_new src flags) as [e|r];
    [left; split; [reflexivity | exact I] | apply Hf].
Qed.

(** [Click_Element] clicks at most one element: either it reports an error
    (a text starting with ["Error: "]) and leaves the page, the files and
    the log unchanged, or it clicked exactly one element and reports
    ["Successfully clicked ..."]. *)
Theorem click_element_effect (dir target : jstr) (w : world) :
  (snd (V1.execute dir (V1.Click_Element target) w) = w
   /\ exists s, fst (V1.execute dir (V1.Click_Element target) w) = Ok (RStr s)
                /\ starts_with (js "Error: ") s = true)
  \/ (exists e s, V1.execute dir (V1.Click_Element target) w = (Ok (RStr s), log (Clicked e) w)
                  /\ starts_with (js "Successfully clicked ") s = true).
Proof.
  unfold V1.execute, V1.click_element, guarded.
  match goal with |- context [try_catch ?b _ w] => set (body := b) end.
  assert (Hb : click_body body).
  { subst body.
    repeat ((apply click_body_regexp; intros ?)
            || (apply click_body_try_locator; [apply starts_with_app_r; reflexivity|])).
    intros w'; left; split; [reflexivity|]; apply starts_with_app_r; reflexivity. }
  unfold try_catch; destruct (Hb w) as [[E R]|(e & s & E & S)].
  - left; destruct (body w) as [[[s|l]|m] w'] eqn:Ew; simpl in E, R |- *; subst w';
      try contradiction.
    + split; [reflexivity|]; exists s; split; [reflexivity | exact R].
    + split; [reflexivity|]; eexists; split; reflexivity.
  - right; exists e, s; rewrite E; split; [reflexivity | exact S].
Qed.

End Clicks.

(** ** Searching, listing and the screenshots directory *)

Lemma includes_nil (s : jstr) : includes s [] = true.
Proof. destruct s; reflexivity. Qed.

(** An empty search text matches every element inside [body] whose
    [innerText] is non-empty and whose box has a positive size. *)
Theorem find_text_empty_search {RT : JsRuntime} (dom : list element) :
  to_lower [] = [] ->
  V2.find_text_script [] dom
  = map match_info
        (filter (fun e => el_in_body e
                          && match el_inner_text e with Some it => truthy it | None => false end
                          && Qpos (r_width (el_rect e)) && Qpos (r_height (el_rect e))) dom).
Proof.
  intros H; rewrite find_text_script_filter; f_equal; apply filter_ext; intros e.
  unfold text_hit; rewrite H, <- !andb_assoc.
  destruct (el_inner_text e) as [it|]; [|rewrite !andb_false_r; reflexivity].
  rewrite includes_nil, andb_true_r; reflexivity.
Qed.

(** [getPageElements] reports only how many interactive elements the page
    has (visible or not), and leaves the world as it is. *)
Theorem get_page_elements_count {RT : JsRuntime} (dir : jstr) (w : world) :
  w_fail w (CEvaluate SPageElements) = None ->
  V2.execute dir V2.getPageElements w
  = (Ok (RStr (js "Found " ++ nat_to_dec (List.length (filter V2.interactive (w_dom w)))
               ++ js " interactive elements.")), w).
Proof.
  intros H; unfold V2.execute, V2.get_page_elements, guarded, try_catch, bind, pw_evaluate.
  rewrite H; unfold ret, V2.page_elements_script.
  rewrite length_map, length_combine, length_seq, Nat.min_id; reflexivity.
Qed.

Lemma jstr_eqb_refl (s : jstr) : jstr_eqb s s = true.
Proof. induction s as [|x s IH]; simpl; [reflexivity|]; rewrite N.eqb_refl, IH; reflexivity. Qed.

(** Once [createBrowserTools] has set up the screenshots directory, setting
    it up again returns the same directory and changes nothing. *)
Theorem create_browser_tools_idempotent {RT : JsRuntime} (w : world) :
  match V2.create_browser_tools w with
  | (Ok d, w1) => V2.create_browser_tools w1 = (Ok d, w1) /\ V1.create_browser_tools w1 = (Ok d, w1)
  | (Exn _, _) => True
  end.
Proof.
  unfold V2.create_browser_tools, V1.create_browser_tools, create_screenshots_dir, bind, cwd,
    exists_sync, ret.
  destruct (existsb _ _) eqn:E; [rewrite E; split; reflexivity|].
  unfold mkdir_sync; destruct (w_fail w _); [exact I|].
  cbn [add_dir w_cwd w_dirs w_files].
  rewrite existsb_app, existsb_app; cbn [existsb]; rewrite jstr_eqb_refl.
  rewrite !orb_true_r, orb_true_l; split; reflexivity.
Qed.

(** ** Examples for the properties above *)

Definition cli_world : agent_world :=
  mkAgentWorld (example_world [] [] no_fail)
               (fun c => match c with AClose => Some (js "Target page, context or browser has been closed") | _ => None end)
               false [] [].

Lemma on_line_ignores_spaces_witness :
  forallb js_space (js "  ") = true /\ forallb js_space nl = true
  /\ on_line (js "  " ++ js "EXIT" ++ nl) = on_line (js "EXIT").
Proof.
  split; [reflexivity|]; split; [reflexivity|].
  apply on_line_ignores_spaces; reflexivity.
Defined.

Lemma on_line_prompts_witness :
  jstr_eqb (to_lower (trim (js " open example.com "))) (js "exit") = false
  /\ ((fst (on_line (js " open example.com ") cli_world) = Ok tt
       /\ last (a_calls (snd (on_line (js " open example.com ") cli_world))) AClose = APrompt)
      \/ (truthy (trim (js " open example.com ")) = true /\ a_fail cli_world ALaunch = None
          /\ exists e, a_fail cli_world AClose = Some e
                       /\ fst (on_line (js " open example.com ") cli_world) = Exn e
                       /\ last (a_calls (snd (on_line (js " open example.com ") cli_world))) APrompt
                          = AClose)).
Proof.
  split; [vm_compute; reflexivity|].
  apply on_line_prompts; vm_compute; reflexivity.
Defined.

Lemma find_text_empty_search_witness :
  to_lower [] = [] /\ V2.find_text_script [] search_page = map match_info (filter
    (fun e => el_in_body e
              && match el_inner_text e with Some it => truthy it | None => false end
              && Qpos (r_width (el_rect e)) && Qpos (r_height (el_rect e))) search_page).
Proof. split; [reflexivity|]; apply find_text_empty_search; reflexivity. Defined.

Lemma get_page_elements_count_witness :
  w_fail (example_world [ok_button; submit_button] [] no_fail) (CEvaluate SPageElements) = None
  /\ V2.execute home V2.getPageElements (example_world [ok_button; submit_button] [] no_fail)
     = (Ok (RStr (js "Found " ++ nat_to_dec (List.length (filter V2.interactive [ok_button; submit_button]))
                  ++ js " interactive elements.")), example_world [ok_button; submit_button] [] no_fail).
Proof. split; [reflexivity|]; apply get_page_elements_count; reflexivity. Defined.
